(** * PasswordVault: the codebook / password-entry repository over SQLite

    A shallow embedding of [src/core/PassWordVault.cpp].  The C++ class talks
    to the store only through the SQLite C API, so the development has three
    layers:

    - the persisted schema (two tables) and the connection state;
    - the handful of SQLite calls the class uses ([sqlite3_prepare_v2],
      [sqlite3_step], [sqlite3_exec], [sqlite3_changes], [sqlite3_errmsg]),
      each of which may fail: the connection carries a script of the faults
      the environment will inject into the coming calls;
    - the methods of [PasswordVault], written in a state-and-exception monad
      so that they read like the C++ bodies.

    Text is modelled as [string], one [ascii] per byte; a C++ [int] as a [Z]
    with the wrap-around written out where the code computes with it. *)

From Stdlib Require Import String Ascii List ZArith Lia Bool.
From Stdlib Require Import Sorted Permutation.
Import ListNotations.

Local Open Scope string_scope.
Local Open Scope Z_scope.

(** ** C++ values *)

(** [std::string::c_str()] handed to SQLite with length [-1]: the bound text
    stops at the first NUL byte. *)
Fixpoint c_str (s : string) : string :=
  match s with
  | EmptyString => EmptyString
  | String c s' => if Ascii.eqb c zero then EmptyString else String c (c_str s')
  end.

(** Two's-complement reading of a value as a 32-bit [int]. *)
Definition INT_MAX : Z := 2147483647.
Definition INT_MIN : Z := -2147483648.
Definition int_wrap (z : Z) : Z := (z + 2147483648) mod 4294967296 - 2147483648.
(** [isalnum] in the "C" locale. *)
Definition isalnum (c : ascii) : bool :=
  let n := N_of_ascii c in
  ((48 <=? n) && (n <=? 57) || (65 <=? n) && (n <=? 90) || (97 <=? n) && (n <=? 122))%N.

(** ** The persisted schema *)

Module CodebookT.
Record row := mk {
  codebook_id : Z;
  username : string;
  codebook_name : string;
  created_time : string
}.
End CodebookT.

Module PasswordEntryT.
Record row := mk {
  entry_id : Z;
  codebook_id : Z;
  address : string;
  public_key : string;
  encrypted_password : string;
  notes : string;
  created_time : string
}.
End PasswordEntryT.

(** Rows are kept in rowid (insertion) order. *)
Record tables := mk_tables {
  Codebook : list CodebookT.row;
  PasswordEntry : list PasswordEntryT.row
}.

(** ** The connection *)

Inductive rc := SQLITE_OK | SQLITE_ERROR | SQLITE_ROW | SQLITE_DONE.

Definition rc_eqb (a b : rc) : bool :=
  match a, b with
  | SQLITE_OK, SQLITE_OK | SQLITE_ERROR, SQLITE_ERROR
  | SQLITE_ROW, SQLITE_ROW | SQLITE_DONE, SQLITE_DONE => true
  | _, _ => false
  end.

Inductive txn_command := BEGIN_TRANSACTION | COMMIT | ROLLBACK.

(** What the connection was asked to do, and whether the call succeeded. *)
Inductive event :=
| ev_prepare (ok : bool)
| ev_step (ok : bool)
| ev_exec (cmd : txn_command) (ok : bool).

Record sqlite3 := mk_sqlite3 {
  db_rows : tables;                  (* what a statement on this connection sees *)
  db_journal : option tables;        (* the rows as of BEGIN, while a transaction is open *)
  db_changes : Z;                    (* sqlite3_changes *)
  db_errmsg : string;                (* sqlite3_errmsg *)
  db_now : string;                   (* CURRENT_TIMESTAMP *)
  db_faults : list (option string);  (* per coming API call: [Some msg] makes it fail *)
  db_trace : list event              (* the calls made so far, oldest first *)
}.

Definition set_rows (t : tables) (db : sqlite3) : sqlite3 :=
  mk_sqlite3 t (db_journal db) (db_changes db) (db_errmsg db) (db_now db)
             (db_faults db) (db_trace db).

Definition set_journal (j : option tables) (db : sqlite3) : sqlite3 :=
  mk_sqlite3 (db_rows db) j (db_changes db) (db_errmsg db) (db_now db)
             (db_faults db) (db_trace db).

Definition set_changes (n : Z) (db : sqlite3) : sqlite3 :=
  mk_sqlite3 (db_rows db) (db_journal db) n (db_errmsg db) (db_now db)
             (db_faults db) (db_trace db).

(** Every API call consumes one slot of the fault script, leaves its
    diagnostic in [db_errmsg] and is appended to the trace. *)
Definition next_fault (db : sqlite3) : option string :=
  match db_faults db with
  | [] => None
  | f :: _ => f
  end.

Definition api_exit (e : event) (msg : string) (db : sqlite3) : sqlite3 :=
  mk_sqlite3 (db_rows db) (db_journal db) (db_changes db) msg (db_now db)
             (tl (db_faults db)) (db_trace db ++ [e]).

Definition not_an_error : string := "not an error".

(** The rows that survive a crash or a rollback: the snapshot taken at BEGIN
    while a transaction is open, the visible rows otherwise. *)
Definition durable (db : sqlite3) : tables :=
  match db_journal db with
  | Some t => t
  | None => db_rows db
  end.

(** ** SQL evaluation *)

(** [LIKE], as the store's [likeFunc] and [patternCompare] evaluate it.
    Both texts are read as UTF-8, one character at a time, by
    [sqlite3Utf8Read]: a byte below 0xC0 is a character of its own; a lead
    byte from 0xC0 on takes every continuation byte (10xxxxxx) after it,
    six bits each, in a 32-bit unsigned; what comes out below 0x80, as a
    surrogate or as 0xFFFE or 0xFFFF is read as U+FFFD.  The text ends at its
    first NUL.  In the pattern [%] matches any run of characters, [_] exactly
    one character and any other character itself, the letters of ASCII
    regardless of case.  A pattern of more than 50000 bytes is refused: the
    function raises an error, the step that evaluates it fails and the
    statement yields no row; [like] is false there. *)
Definition to_upper (c : ascii) : ascii :=
  let n := N_of_ascii c in
  if ((97 <=? n) && (n <=? 122))%N then ascii_of_N (n - 32) else c.

(** [sqlite3Utf8Trans1]: the payload bits of a lead byte 0xC0..0xFF. *)
Definition utf8_trans1 (b : N) : N :=
  (if b <? 224 then b - 192
   else if b <? 240 then b - 224
   else if b <? 248 then b - 240
   else if b <? 252 then b - 248
   else if b <? 254 then b - 252
   else 0)%N.

Definition utf8_is_cont (b : N) : bool := (N.land b 192 =? 128)%N.

Definition utf8_shift (c b : N) : N :=
  ((N.shiftl c 6 + N.land b 63) mod 4294967296)%N.

Definition utf8_finish (c : N) : N :=
  (if (c <? 128) || (N.land c 4294965248 =? 55296) || (N.land c 4294967294 =? 65534)
   then 65533 else c)%N.

(** The characters of a text; [pending] is the value of a lead byte whose
    continuation bytes are still being read. *)
Fixpoint utf8_chars (pending : option N) (s : string) : list N :=
  match s with
  | EmptyString =>
      match pending with
      | Some c => [utf8_finish c]
      | None => []
      end
  | String b s' =>
      let n := N_of_ascii b in
      match pending with
      | Some c =>
          if utf8_is_cont n then utf8_chars (Some (utf8_shift c n)) s'
          else
            utf8_finish c ::
              (if (n <? 192)%N then n :: utf8_chars None s'
               else utf8_chars (Some (utf8_trans1 n)) s')
      | None =>
          if (n <? 192)%N then n :: utf8_chars None s'
          else utf8_chars (Some (utf8_trans1 n)) s'
      end
  end.

(** [sqlite3Tolower] on a character. *)
Definition like_lower (c : N) : N :=
  (if (65 <=? c) && (c <=? 90) then c + 32 else c)%N.

Definition like_char (p c : N) : bool :=
  ((p =? c) || ((p <? 128) && (c <? 128) && (like_lower p =? like_lower c)))%N.

Fixpoint like_chars (pattern : list N) (s : list N) {struct pattern} : bool :=
  match pattern with
  | [] => match s with [] => true | _ => false end
  | p :: pattern' =>
      if (p =? 37)%N then
        (fix any_run (s : list N) : bool :=
           like_chars pattern' s ||
           match s with
           | [] => false
           | _ :: s' => any_run s'
           end) s
      else
        match s with
        | [] => false
        | c :: s' => ((p =? 95)%N || like_char p c) && like_chars pattern' s'
        end
  end.

(** SQLITE_MAX_LIKE_PATTERN_LENGTH, in bytes. *)
Definition LIKE_PATTERN_LENGTH : N := 50000.

Definition like (pattern : string) (s : string) : bool :=
  (N.of_nat (String.length pattern) <=? LIKE_PATTERN_LENGTH)%N
  && like_chars (utf8_chars None (c_str pattern)) (utf8_chars None (c_str s)).

(** [ORDER BY key DESC] over text keys (binary collation); rows with equal
    keys stay in scan order. *)
Section OrderBy.
Context {A : Type} (key : A -> string).

Fixpoint insert_desc (x : A) (l : list A) : list A :=
  match l with
  | [] => [x]
  | y :: l' =>
      if String.leb (key y) (key x) then x :: y :: l'
      else y :: insert_desc x l'
  end.

Fixpoint order_by_desc (l : list A) : list A :=
  match l with
  | [] => []
  | x :: l' => insert_desc x (order_by_desc l')
  end.
End OrderBy.

(** [LIMIT n OFFSET k]: a negative limit is no limit, a negative offset is 0. *)
Definition limit_offset {A : Type} (limit offset : Z) (l : list A) : list A :=
  let l' := skipn (Z.to_nat offset) l in
  if limit <? 0 then l' else firstn (Z.to_nat limit) l'.

(** The rowid given to a new row: one more than the largest in use. *)
Definition next_rowid (ids : list Z) : Z :=
  match ids with
  | [] => 1
  | i :: rest => 1 + fold_right Z.max i rest
  end.

(** The statements of the class, with their parameters bound. *)
Inductive write_stmt :=
| InsertCodebook (username codebook_name : string)
| DeleteEntriesOf (codebook_id : Z)
| DeleteCodebookRow (codebook_id : Z)
| InsertEntry (codebook_id : Z) (address public_key encrypted_password notes : string)
| UpdateEntryRow (address public_key encrypted_password notes : string) (entry_id : Z).

Definition same_codebook_key (u n : string) (r : CodebookT.row) : bool :=
  String.eqb (CodebookT.username r) u && String.eqb (CodebookT.codebook_name r) n.

Definition update_row (a k p n : string) (id : Z) (r : PasswordEntryT.row)
  : PasswordEntryT.row :=
  if PasswordEntryT.entry_id r =? id then
    PasswordEntryT.mk (PasswordEntryT.entry_id r) (PasswordEntryT.codebook_id r)
                      a k p n (PasswordEntryT.created_time r)
  else r.

Definition count_if {A : Type} (f : A -> bool) (l : list A) : Z :=
  Z.of_nat (length (filter f l)).

(** The effect of a write on the tables, and the number of rows it changed. *)
Definition run_write (s : write_stmt) (now : string) (t : tables) : tables * Z :=
  match s with
  | InsertCodebook u n =>
      (* ON CONFLICT(username, codebook_name) DO NOTHING *)
      if existsb (same_codebook_key u n) (Codebook t) then (t, 0)
      else
        (mk_tables
           (Codebook t ++
              [CodebookT.mk (next_rowid (map CodebookT.codebook_id (Codebook t))) u n now])
           (PasswordEntry t), 1)
  | DeleteEntriesOf id =>
      (mk_tables (Codebook t)
         (filter (fun r => negb (PasswordEntryT.codebook_id r =? id)) (PasswordEntry t)),
       count_if (fun r => PasswordEntryT.codebook_id r =? id) (PasswordEntry t))
  | DeleteCodebookRow id =>
      (mk_tables
         (filter (fun r => negb (CodebookT.codebook_id r =? id)) (Codebook t))
         (PasswordEntry t),
       count_if (fun r => CodebookT.codebook_id r =? id) (Codebook t))
  | InsertEntry id a k p n =>
      (mk_tables (Codebook t)
         (PasswordEntry t ++
            [PasswordEntryT.mk
               (next_rowid (map PasswordEntryT.entry_id (PasswordEntry t)))
               id a k p n now]), 1)
  | UpdateEntryRow a k p n id =>
      (mk_tables (Codebook t) (map (update_row a k p n id) (PasswordEntry t)),
       count_if (fun r => PasswordEntryT.entry_id r =? id) (PasswordEntry t))
  end.

(** SELECT 1 FROM Codebook WHERE codebook_id = ? *)
Definition select_codebook_exists (id : Z) (t : tables) : list CodebookT.row :=
  filter (fun r => CodebookT.codebook_id r =? id) (Codebook t).

(** SELECT ... FROM Codebook WHERE username = ? ORDER BY created_time DESC *)
Definition select_user_codebooks (u : string) (t : tables) : list CodebookT.row :=
  order_by_desc CodebookT.created_time
    (filter (fun r => String.eqb (CodebookT.username r) u) (Codebook t)).

(** SELECT ... FROM PasswordEntry WHERE codebook_id = ? AND address LIKE ?
    ORDER BY created_time DESC LIMIT ? OFFSET ? *)
Definition entry_matches (id : Z) (pattern : string) (r : PasswordEntryT.row) : bool :=
  (PasswordEntryT.codebook_id r =? id) && like pattern (PasswordEntryT.address r).

Definition select_entries (id : Z) (pattern : string) (limit offset : Z) (t : tables)
  : list PasswordEntryT.row :=
  limit_offset limit offset
    (order_by_desc PasswordEntryT.created_time
       (filter (entry_matches id pattern) (PasswordEntry t))).

(** ** Exceptions and the method monad *)

Inductive exn :=
| invalid_argument (what : string)
| runtime_error (what : string).

Inductive outcome (A : Type) :=
| Return (a : A)
| Throw (e : exn).
Arguments Return {A} a.
Arguments Throw {A} e.

(** A method body: it runs against the connection and either returns or
    throws, leaving the connection in a new state. *)
Definition M (A : Type) : Type := sqlite3 -> outcome A * sqlite3.

Definition ret {A : Type} (a : A) : M A := fun db => (Return a, db).

Definition throw {A : Type} (e : exn) : M A := fun db => (Throw e, db).

Definition bind {A B : Type} (c : M A) (k : A -> M B) : M B :=
  fun db =>
    match c db with
    | (Return a, db') => k a db'
    | (Throw e, db') => (Throw e, db')
    end.

(** [try { body } catch (...) { handler }] *)
Definition try_catch {A : Type} (body : M A) (handler : exn -> M A) : M A :=
  fun db =>
    match body db with
    | (Return a, db') => (Return a, db')
    | (Throw e, db') => handler e db'
    end.

Declare Scope vault_scope.
Delimit Scope vault_scope with vault.
Notation "x <- c ;; k" := (bind c (fun x => k))
  (at level 100, c at next level, right associativity) : vault_scope.
Notation "c ;;; k" := (bind c (fun _ => k))
  (at level 100, right associativity) : vault_scope.
Local Open Scope vault_scope.

(** ** The SQLite calls *)

Definition sqlite3_prepare_v2 : M rc := fun db =>
  match next_fault db with
  | Some msg => (Return SQLITE_ERROR, api_exit (ev_prepare false) msg db)
  | None => (Return SQLITE_OK, api_exit (ev_prepare true) not_an_error db)
  end.

(** One step of a write: it either fails and changes nothing, or runs to
    completion. *)
Definition sqlite3_step (s : write_stmt) : M rc := fun db =>
  match next_fault db with
  | Some msg => (Return SQLITE_ERROR, api_exit (ev_step false) msg db)
  | None =>
      let (t, n) := run_write s (db_now db) (db_rows db) in
      (Return SQLITE_DONE,
       api_exit (ev_step true) not_an_error (set_changes n (set_rows t db)))
  end.

(** The result set of a query, fixed when the statement starts. *)
Definition result_set {R : Type} (q : tables -> list R) : M (list R) :=
  fun db => (Return (q (db_rows db)), db).

(** One step of a query with [pending] rows still to deliver. *)
Definition sqlite3_step_row {R : Type} (pending : list R) : M rc := fun db =>
  match next_fault db with
  | Some msg => (Return SQLITE_ERROR, api_exit (ev_step false) msg db)
  | None =>
      (Return (match pending with [] => SQLITE_DONE | _ :: _ => SQLITE_ROW end),
       api_exit (ev_step true) not_an_error db)
  end.

(** [while (sqlite3_step(stmt) == SQLITE_ROW) { out.push_back(read(row)); }] *)
Fixpoint while_step_row {R T : Type} (read : R -> T) (pending : list R) : M (list T) :=
  rc <- sqlite3_step_row pending ;;
  if rc_eqb rc SQLITE_ROW then
    match pending with
    | r :: rest => out <- while_step_row read rest ;; ret (read r :: out)
    | [] => ret []
    end
  else ret [].

Definition sqlite3_finalize : M unit := ret tt.

Definition sqlite3_changes : M Z := fun db => (Return (db_changes db), db).

Definition sqlite3_errmsg : M string := fun db => (Return (db_errmsg db), db).

Definition sqlite3_column_int (v : Z) : Z := int_wrap v.

Definition sqlite3_exec (cmd : txn_command) : M rc := fun db =>
  match next_fault db with
  | Some msg => (Return SQLITE_ERROR, api_exit (ev_exec cmd false) msg db)
  | None =>
      match cmd, db_journal db with
      | BEGIN_TRANSACTION, None =>
          (Return SQLITE_OK,
           api_exit (ev_exec cmd true) not_an_error (set_journal (Some (db_rows db)) db))
      | BEGIN_TRANSACTION, Some _ =>
          (Return SQLITE_ERROR,
           api_exit (ev_exec cmd false) "cannot start a transaction within a transaction" db)
      | COMMIT, Some _ =>
          (Return SQLITE_OK,
           api_exit (ev_exec cmd true) not_an_error (set_journal None db))
      | COMMIT, None =>
          (Return SQLITE_ERROR,
           api_exit (ev_exec cmd false) "cannot commit - no transaction is active" db)
      | ROLLBACK, Some t =>
          (Return SQLITE_OK,
           api_exit (ev_exec cmd true) not_an_error (set_journal None (set_rows t db)))
      | ROLLBACK, None =>
          (Return SQLITE_ERROR,
           api_exit (ev_exec cmd false) "cannot rollback - no transaction is active" db)
      end
  end.

(** ** The class *)

Module PasswordVault.

Module Codebook.
Record t := mk { id : Z; name : string; created_time : string }.
End Codebook.

Module PasswordEntry.
Record t := mk {
  id : Z;
  address : string;
  public_key : string;
  encrypted_password : string;
  notes : string;
  created_time : string
}.
End PasswordEntry.

Definition allowed_char (c : ascii) : bool :=
  isalnum c || Ascii.eqb c " " || Ascii.eqb c "-" || Ascii.eqb c "_".

Definition ValidateCodebookName (name : string) : bool :=
  negb (String.eqb name "") &&
  (String.length name <=? 100)%nat &&
  forallb allowed_char (list_ascii_of_string name).

Definition prepare_failed : M exn :=
  msg <- sqlite3_errmsg ;; ret (runtime_error ("Prepare failed: " ++ msg)).

Definition BeginTransaction : M bool :=
  rc <- sqlite3_exec BEGIN_TRANSACTION ;; ret (rc_eqb rc SQLITE_OK).

Definition CommitTransaction : M bool :=
  rc <- sqlite3_exec COMMIT ;; ret (rc_eqb rc SQLITE_OK).

Definition RollbackTransaction : M bool :=
  rc <- sqlite3_exec ROLLBACK ;; ret (rc_eqb rc SQLITE_OK).

Definition CheckCodebookExists (codebook_id : Z) : M bool :=
  rc <- sqlite3_prepare_v2 ;;
  if negb (rc_eqb rc SQLITE_OK) then e <- prepare_failed ;; throw e
  else
    rows <- result_set (select_codebook_exists codebook_id) ;;
    rc <- sqlite3_step_row rows ;;
    let exists_ := rc_eqb rc SQLITE_ROW in
    sqlite3_finalize ;;;
    ret exists_.

Definition CreateCodebook (username name : string) : M bool :=
  if negb (ValidateCodebookName name) then
    throw (invalid_argument "Codebook name is invalid")
  else
    rc <- sqlite3_prepare_v2 ;;
    if negb (rc_eqb rc SQLITE_OK) then e <- prepare_failed ;; throw e
    else
      rc <- sqlite3_step (InsertCodebook (c_str username) (c_str name)) ;;
      let success := rc_eqb rc SQLITE_DONE in
      sqlite3_finalize ;;;
      ret success.

Definition DeleteCodebook (codebook_id : Z) : M bool :=
  exists_ <- CheckCodebookExists codebook_id ;;
  if negb exists_ then ret false
  else
    began <- BeginTransaction ;;
    if negb began then throw (runtime_error "Failed to start transaction")
    else
      try_catch
        (rc <- sqlite3_prepare_v2 ;;
         if negb (rc_eqb rc SQLITE_OK) then
           RollbackTransaction ;;;
           e <- prepare_failed ;; throw e
         else
           rc <- sqlite3_step (DeleteEntriesOf codebook_id) ;;
           if negb (rc_eqb rc SQLITE_DONE) then
             sqlite3_finalize ;;;
             RollbackTransaction ;;;
             msg <- sqlite3_errmsg ;;
             throw (runtime_error ("Delete entries failed: " ++ msg))
           else
             sqlite3_finalize ;;;
             rc <- sqlite3_prepare_v2 ;;
             if negb (rc_eqb rc SQLITE_OK) then
               RollbackTransaction ;;;
               e <- prepare_failed ;; throw e
             else
               rc <- sqlite3_step (DeleteCodebookRow codebook_id) ;;
               if negb (rc_eqb rc SQLITE_DONE) then
                 sqlite3_finalize ;;;
                 RollbackTransaction ;;;
                 msg <- sqlite3_errmsg ;;
                 throw (runtime_error ("Delete codebook failed: " ++ msg))
               else
                 sqlite3_finalize ;;;
                 committed <- CommitTransaction ;;
                 if negb committed then
                   msg <- sqlite3_errmsg ;;
                   throw (runtime_error ("Commit failed: " ++ msg))
                 else ret true)
        (fun e => RollbackTransaction ;;; throw e).

Definition read_codebook (r : CodebookT.row) : Codebook.t :=
  Codebook.mk (sqlite3_column_int (CodebookT.codebook_id r))
              (CodebookT.codebook_name r)
              (CodebookT.created_time r).

Definition GetUserCodebooks (username : string) : M (list Codebook.t) :=
  rc <- sqlite3_prepare_v2 ;;
  if negb (rc_eqb rc SQLITE_OK) then e <- prepare_failed ;; throw e
  else
    rows <- result_set (select_user_codebooks (c_str username)) ;;
    codebooks <- while_step_row read_codebook rows ;;
    sqlite3_finalize ;;;
    ret codebooks.

Definition AddEntry (codebook_id : Z)
           (address public_key encrypted_password notes : string) : M bool :=
  exists_ <- CheckCodebookExists codebook_id ;;
  if negb exists_ then ret false
  else
    rc <- sqlite3_prepare_v2 ;;
    if negb (rc_eqb rc SQLITE_OK) then e <- prepare_failed ;; throw e
    else
      rc <- sqlite3_step
              (InsertEntry codebook_id (c_str address) (c_str public_key)
                           (c_str encrypted_password) (c_str notes)) ;;
      let success := rc_eqb rc SQLITE_DONE in
      sqlite3_finalize ;;;
      ret success.

Definition read_entry (r : PasswordEntryT.row) : PasswordEntry.t :=
  PasswordEntry.mk (sqlite3_column_int (PasswordEntryT.entry_id r))
                   (PasswordEntryT.address r)
                   (PasswordEntryT.public_key r)
                   (PasswordEntryT.encrypted_password r)
                   (PasswordEntryT.notes r)
                   (PasswordEntryT.created_time r).

Definition GetEntries (codebook_id : Z) (filter : string) (page page_size : Z)
  : M (list PasswordEntry.t) :=
  rc <- sqlite3_prepare_v2 ;;
  if negb (rc_eqb rc SQLITE_OK) then e <- prepare_failed ;; throw e
  else
    let filter_pattern := "%" ++ filter ++ "%" in
    let offset := int_wrap (page * page_size) in
    rows <- result_set
              (select_entries codebook_id (c_str filter_pattern) page_size offset) ;;
    entries <- while_step_row read_entry rows ;;
    sqlite3_finalize ;;;
    ret entries.

Definition UpdateEntry (entry_id : Z)
           (new_address new_public_key new_encrypted_password new_notes : string)
  : M bool :=
  if String.eqb new_address "" || (253 <? String.length new_address)%nat then
    throw (invalid_argument "Address must be 1-253 characters")
  else if String.eqb new_public_key "" || (4096 <? String.length new_public_key)%nat then
    throw (invalid_argument "Public key is invalid")
  else if String.eqb new_encrypted_password ""
          || (512 <? String.length new_encrypted_password)%nat then
    throw (invalid_argument "Encrypted password is invalid")
  else
    rc <- sqlite3_prepare_v2 ;;
    if negb (rc_eqb rc SQLITE_OK) then e <- prepare_failed ;; throw e
    else
      rc <- sqlite3_step
              (UpdateEntryRow (c_str new_address) (c_str new_public_key)
                              (c_str new_encrypted_password) (c_str new_notes)
                              entry_id) ;;
      let success := rc_eqb rc SQLITE_DONE in
      rowsAffected <- sqlite3_changes ;;
      sqlite3_finalize ;;;
      ret (success && (0 <? rowsAffected)).

End PasswordVault.

Definition empty_db : sqlite3 :=
  mk_sqlite3 (mk_tables [] []) None 0 not_an_error "2024-01-01 00:00:00" [] [].

Definition with_faults (fs : list (option string)) (db : sqlite3) : sqlite3 :=
  mk_sqlite3 (db_rows db) (db_journal db) (db_changes db) (db_errmsg db) (db_now db)
             fs (db_trace db).

(** ** Reasoning about method bodies *)

(** No fault is scripted: every coming call does what it is asked. *)
Definition no_fault (f : option string) : bool :=
  match f with None => true | Some _ => false end.

Definition healthy (db : sqlite3) : Prop := forallb no_fault (db_faults db) = true.

(** The fault scripted for the [k]-th coming call (from 0). *)
Definition fault_at (k : nat) (db : sqlite3) : option string :=
  nth k (db_faults db) None.

(** The calls made between two states of the connection. *)
Definition calls_since (db db' : sqlite3) : list event :=
  skipn (length (db_trace db)) (db_trace db').

Definition is_rollback (e : event) : bool :=
  match e with ev_exec ROLLBACK _ => true | _ => false end.

Definition is_invalid_argument {A : Type} (o : outcome A) : bool :=
  match o with Throw (invalid_argument _) => true | _ => false end.

Definition is_runtime_error {A : Type} (o : outcome A) : bool :=
  match o with Throw (runtime_error _) => true | _ => false end.

Ltac unfold_api :=
  unfold sqlite3_prepare_v2, sqlite3_step, sqlite3_step_row, sqlite3_exec,
    sqlite3_finalize, sqlite3_changes, sqlite3_errmsg, result_set,
    PasswordVault.prepare_failed, PasswordVault.BeginTransaction,
    PasswordVault.CommitTransaction, PasswordVault.RollbackTransaction,
    bind, ret, throw, try_catch in *.

Lemma healthy_next_fault db : healthy db -> next_fault db = None.
Proof.
  unfold healthy, next_fault. destruct (db_faults db) as [|[m|] fs]; simpl; congruence.
Qed.

Lemma healthy_api_exit e msg db : healthy db -> healthy (api_exit e msg db).
Proof.
  unfold healthy, api_exit; simpl.
  destruct (db_faults db) as [|f fs]; simpl; auto.
  intros H; apply andb_true_iff in H; tauto.
Qed.

Lemma healthy_fault_at db k : healthy db -> fault_at k db = None.
Proof.
  unfold healthy, fault_at. revert k.
  induction (db_faults db) as [|f fs IH]; intros [|k] H; simpl in *; auto.
  - destruct f; simpl in H; congruence.
  - apply IH. apply andb_true_iff in H; tauto.
Qed.

(** ** Name validation *)

(** A character a codebook name may not contain. *)
Definition forbidden_char (c : ascii) : Prop :=
  isalnum c = false /\ c <> " "%char /\ c <> "-"%char /\ c <> "_"%char.

Lemma allowed_char_false c :
  PasswordVault.allowed_char c = false <-> forbidden_char c.
Proof.
  unfold PasswordVault.allowed_char, forbidden_char.
  rewrite !orb_false_iff, !Ascii.eqb_neq. tauto.
Qed.

Lemma forallb_false_Exists {A : Type} (f : A -> bool) (l : list A) :
  forallb f l = false <-> Exists (fun x => f x = false) l.
Proof.
  induction l as [|x l IH]; simpl.
  - split; [discriminate | intros H; inversion H].
  - rewrite andb_false_iff, IH. split.
    + intros [H | H]; [left | right]; assumption.
    + intros H; inversion H; subst; tauto.
Qed.

Lemma ValidateCodebookName_false name :
  PasswordVault.ValidateCodebookName name = false <->
  name = "" \/ (100 < String.length name)%nat \/
  Exists forbidden_char (list_ascii_of_string name).
Proof.
  unfold PasswordVault.ValidateCodebookName.
  rewrite !andb_false_iff, negb_false_iff, String.eqb_eq, Nat.leb_gt,
    forallb_false_Exists.
  assert (E : Exists (fun x => PasswordVault.allowed_char x = false)
                (list_ascii_of_string name)
              <-> Exists forbidden_char (list_ascii_of_string name)).
  { rewrite !Exists_exists.
    split; intros [c [Hin Hc]]; exists c; split; auto; apply allowed_char_false; auto. }
  rewrite E. tauto.
Qed.

Lemma CreateCodebook_invalid db username name :
  PasswordVault.ValidateCodebookName name = false ->
  PasswordVault.CreateCodebook username name db
  = (Throw (invalid_argument "Codebook name is invalid"), db).
Proof.
  intros H. unfold PasswordVault.CreateCodebook. rewrite H. reflexivity.
Qed.

Lemma CreateCodebook_valid_outcome db username name :
  PasswordVault.ValidateCodebookName name = true ->
  is_invalid_argument (fst (PasswordVault.CreateCodebook username name db)) = false.
Proof.
  intros H. unfold PasswordVault.CreateCodebook. rewrite H. simpl.
  unfold_api. destruct (next_fault db); simpl; [reflexivity|].
  destruct (next_fault _); simpl; [reflexivity|].
  destruct (existsb _ _); reflexivity.
Qed.

Lemma CreateCodebook_valid_healthy db username name :
  PasswordVault.ValidateCodebookName name = true ->
  fault_at 0 db = None -> fault_at 1 db = None ->
  fst (PasswordVault.CreateCodebook username name db) = Return true.
Proof.
  intros H F0 F1. unfold PasswordVault.CreateCodebook. rewrite H. simpl.
  unfold_api. unfold fault_at, next_fault, api_exit in *.
  destruct db as [t j c e now fs tr]; simpl in *.
  destruct fs as [|f0 [|f1 fs]]; simpl in *; subst; simpl;
    destruct (existsb _ _); reflexivity.
Qed.

(** C5 — [CreateCodebook] throws [invalid_argument] exactly when the name is
    invalid, that is empty, longer than 100 characters or containing a
    character that is neither alphanumeric nor a space, hyphen or underscore;
    the throw happens before any call to the store, so the connection is left
    exactly as it was.  The empty name and every 101-character name are
    rejected; ["A-B_C 1"] is accepted and, the store answering its two calls,
    the method returns true. *)
Theorem CreateCodebook_validates_name :
  forall (db : sqlite3) (username name : string),
    (PasswordVault.ValidateCodebookName name = false <->
       name = "" \/ (100 < String.length name)%nat \/
       Exists forbidden_char (list_ascii_of_string name))
    /\ (is_invalid_argument (fst (PasswordVault.CreateCodebook username name db)) = true
        <-> PasswordVault.ValidateCodebookName name = false)
    /\ (PasswordVault.ValidateCodebookName name = false ->
        snd (PasswordVault.CreateCodebook username name db) = db)
    /\ is_invalid_argument (fst (PasswordVault.CreateCodebook "user" "" db)) = true
    /\ (String.length name = 101%nat ->
        is_invalid_argument (fst (PasswordVault.CreateCodebook "user" name db)) = true)
    /\ is_invalid_argument (fst (PasswordVault.CreateCodebook "user" "A-B_C 1" db)) = false
    /\ (fault_at 0 db = None -> fault_at 1 db = None ->
        fst (PasswordVault.CreateCodebook "user" "A-B_C 1" db) = Return true).
Proof.
  intros db username name.
  split; [apply ValidateCodebookName_false|].
  split.
  { split.
    - intros H. destruct (PasswordVault.ValidateCodebookName name) eqn:V; auto.
      rewrite (CreateCodebook_valid_outcome db username name V) in H. discriminate.
    - intros V. rewrite (CreateCodebook_invalid db username name V). reflexivity. }
  split.
  { intros V. rewrite (CreateCodebook_invalid db username name V). reflexivity. }
  split; [reflexivity|].
  split.
  { intros L. rewrite CreateCodebook_invalid; [reflexivity|].
    apply ValidateCodebookName_false. right; left. lia. }
  split.
  { apply CreateCodebook_valid_outcome. reflexivity. }
  intros F0 F1. apply CreateCodebook_valid_healthy; auto.
Qed.

Lemma CreateCodebook_validates_name_witness :
  fst (PasswordVault.CreateCodebook "user" "A-B_C 1" empty_db) = Return true
  /\ snd (PasswordVault.CreateCodebook "user" "no/slash" empty_db) = empty_db.
Proof.
  split.
  - apply (CreateCodebook_validates_name empty_db "user" "A-B_C 1"); reflexivity.
  - apply (CreateCodebook_validates_name empty_db "user" "no/slash"). reflexivity.
Defined.

(** ** UpdateEntry *)

Definition entry_exists (id : Z) (t : tables) : bool :=
  existsb (fun r => PasswordEntryT.entry_id r =? id) (PasswordEntry t).

Definition codebook_exists (id : Z) (t : tables) : bool :=
  existsb (fun r => CodebookT.codebook_id r =? id) (Codebook t).

(** The three length checks at the head of [UpdateEntry]. *)
Definition entry_fields_valid (a k p : string) : bool :=
  negb (String.eqb a "" || (253 <? String.length a)%nat) &&
  negb (String.eqb k "" || (4096 <? String.length k)%nat) &&
  negb (String.eqb p "" || (512 <? String.length p)%nat).

Lemma entry_fields_valid_false a k p :
  entry_fields_valid a k p = false <->
  a = "" \/ (253 < String.length a)%nat \/
  k = "" \/ (4096 < String.length k)%nat \/
  p = "" \/ (512 < String.length p)%nat.
Proof.
  unfold entry_fields_valid.
  rewrite !andb_false_iff, !negb_false_iff, !orb_true_iff, !String.eqb_eq, !Nat.ltb_lt.
  tauto.
Qed.

Lemma count_if_pos_existsb {A : Type} (f : A -> bool) (l : list A) :
  (0 <? count_if f l) = existsb f l.
Proof.
  unfold count_if. induction l as [|x l IH]; simpl; [reflexivity|].
  destruct (f x); simpl; [|exact IH].
  apply Z.ltb_lt. lia.
Qed.

Lemma map_update_row_absent a k p n id (l : list PasswordEntryT.row) :
  existsb (fun r => PasswordEntryT.entry_id r =? id) l = false ->
  map (update_row a k p n id) l = l.
Proof.
  induction l as [|r l IH]; simpl; [reflexivity|].
  intros H. apply orb_false_iff in H as [H1 H2].
  unfold update_row at 1. rewrite H1, (IH H2). reflexivity.
Qed.

Lemma UpdateEntry_invalid db id a k p n :
  entry_fields_valid a k p = false ->
  exists what,
    PasswordVault.UpdateEntry id a k p n db = (Throw (invalid_argument what), db).
Proof.
  unfold entry_fields_valid, PasswordVault.UpdateEntry. intros H.
  destruct (String.eqb a "" || (253 <? String.length a)%nat); [eexists; reflexivity|].
  destruct (String.eqb k "" || (4096 <? String.length k)%nat); [eexists; reflexivity|].
  destruct (String.eqb p "" || (512 <? String.length p)%nat); [eexists; reflexivity|].
  discriminate.
Qed.

Lemma UpdateEntry_valid_unfold db id a k p n :
  entry_fields_valid a k p = true ->
  PasswordVault.UpdateEntry id a k p n db =
  match fault_at 0 db with
  | Some msg =>
      (Throw (runtime_error ("Prepare failed: " ++ msg)),
       api_exit (ev_prepare false) msg db)
  | None =>
      match fault_at 1 db with
      | Some msg =>
          (Return false,
           api_exit (ev_step false) msg (api_exit (ev_prepare true) not_an_error db))
      | None =>
          (Return (entry_exists id (db_rows db)),
           api_exit (ev_step true) not_an_error
             (set_changes
                (count_if (fun r => PasswordEntryT.entry_id r =? id)
                          (PasswordEntry (db_rows db)))
                (set_rows
                   (mk_tables (Codebook (db_rows db))
                      (map (update_row (c_str a) (c_str k) (c_str p) (c_str n) id)
                           (PasswordEntry (db_rows db))))
                   (api_exit (ev_prepare true) not_an_error db))))
      end
  end.
Proof.
  unfold entry_fields_valid, PasswordVault.UpdateEntry. intros H.
  destruct (String.eqb a "" || (253 <? String.length a)%nat); [discriminate|].
  destruct (String.eqb k "" || (4096 <? String.length k)%nat); [discriminate|].
  destruct (String.eqb p "" || (512 <? String.length p)%nat); [discriminate|].
  clear H. unfold_api. unfold fault_at, next_fault, entry_exists.
  destruct db as [t j c e now fs tr]; simpl.
  destruct fs as [|[m0|] [|[m1|] fs]]; simpl; try reflexivity;
    rewrite count_if_pos_existsb; reflexivity.
Qed.

(** C3 — [UpdateEntry] throws [invalid_argument] exactly when the new address
    is empty or longer than 253, the new public key is empty or longer than
    4096, or the new encrypted password is empty or longer than 512 (the notes
    take no part in it).  Otherwise it returns true exactly when the statement
    was prepared and executed and a row with that [entry_id] was there to be
    modified; for an [entry_id] that names no row it returns false, no
    exception being thrown once the statement is prepared. *)
Theorem UpdateEntry_contract :
  forall (db : sqlite3) (entry_id : Z) (a k p n : string),
    let r := fst (PasswordVault.UpdateEntry entry_id a k p n db) in
    (is_invalid_argument r = true <->
       a = "" \/ (253 < String.length a)%nat \/
       k = "" \/ (4096 < String.length k)%nat \/
       p = "" \/ (512 < String.length p)%nat)
    /\ (is_invalid_argument r = false ->
        (r = Return true <->
           fault_at 0 db = None /\ fault_at 1 db = None /\
           entry_exists entry_id (db_rows db) = true))
    /\ (is_invalid_argument r = false ->
        entry_exists entry_id (db_rows db) = false ->
        fault_at 0 db = None ->
        r = Return false).
Proof.
  intros db id a k p n.
  destruct (entry_fields_valid a k p) eqn:V.
  - assert (NV : ~ (a = "" \/ (253 < String.length a)%nat \/
                    k = "" \/ (4096 < String.length k)%nat \/
                    p = "" \/ (512 < String.length p)%nat)).
    { rewrite <- entry_fields_valid_false. congruence. }
    rewrite (UpdateEntry_valid_unfold db id a k p n V).
    destruct (fault_at 0 db) as [m0|]; simpl.
    { split; [split; [discriminate | tauto]|].
      split; [intros _; split; [discriminate | intros [F _]; discriminate]|].
      intros _ _ F; discriminate. }
    destruct (fault_at 1 db) as [m1|]; simpl.
    { split; [split; [discriminate | tauto]|].
      split; [intros _; split; [discriminate | intros [_ [F _]]; discriminate]|].
      reflexivity. }
    split; [split; [discriminate | tauto]|].
    split.
    + intros _; split.
      * intros E; repeat split; congruence.
      * intros [_ [_ E]]; rewrite E; reflexivity.
    + intros _ E _. rewrite E. reflexivity.
  - destruct (UpdateEntry_invalid db id a k p n V) as [what E].
    rewrite E; simpl.
    apply entry_fields_valid_false in V.
    split; [split; [intros _; exact V | reflexivity]|].
    split; discriminate.
Qed.

Definition one_entry_db : sqlite3 :=
  mk_sqlite3
    (mk_tables
       [CodebookT.mk 1 "user" "mail" "2024-01-01 00:00:00"]
       [PasswordEntryT.mk 7 1 "example.com" "pk" "secret" "" "2024-01-02 00:00:00"])
    None 0 not_an_error "2024-01-03 00:00:00" [] [].

Lemma UpdateEntry_contract_witness :
  fst (PasswordVault.UpdateEntry 8 "example.org" "pk2" "secret2" "" one_entry_db)
  = Return false.
Proof.
  apply (UpdateEntry_contract one_entry_db 8 "example.org" "pk2" "secret2" "");
    reflexivity.
Defined.

Lemma UpdateEntry_rows db id a k p n :
  let run := PasswordVault.UpdateEntry id a k p n db in
  db_journal (snd run) = db_journal db /\
  (db_rows (snd run) = db_rows db \/
   fst run = Return (entry_exists id (db_rows db)) /\
   db_rows (snd run) =
     mk_tables (Codebook (db_rows db))
       (map (update_row (c_str a) (c_str k) (c_str p) (c_str n) id)
            (PasswordEntry (db_rows db)))).
Proof.
  destruct (entry_fields_valid a k p) eqn:V.
  - simpl. rewrite (UpdateEntry_valid_unfold db id a k p n V).
    destruct (fault_at 0 db); simpl; auto.
    destruct (fault_at 1 db); simpl; auto.
  - destruct (UpdateEntry_invalid db id a k p n V) as [what E].
    simpl. rewrite E. simpl. auto.
Qed.

Lemma nth_error_update_row a k p n id (l : list PasswordEntryT.row) i r :
  nth_error l i = Some r ->
  nth_error (map (update_row a k p n id) l) i = Some (update_row a k p n id r).
Proof. intros H. rewrite nth_error_map, H. reflexivity. Qed.

Lemma update_row_keys a k p n id r :
  PasswordEntryT.entry_id (update_row a k p n id r) = PasswordEntryT.entry_id r /\
  PasswordEntryT.codebook_id (update_row a k p n id r) = PasswordEntryT.codebook_id r /\
  PasswordEntryT.created_time (update_row a k p n id r) = PasswordEntryT.created_time r /\
  (PasswordEntryT.entry_id r <> id -> update_row a k p n id r = r).
Proof.
  unfold update_row. destruct (PasswordEntryT.entry_id r =? id) eqn:E; simpl.
  - apply Z.eqb_eq in E. repeat split; auto. intros H; contradiction.
  - repeat split; auto.
Qed.

(** C10 — [UpdateEntry] leaves the Codebook table and the transaction state
    alone and keeps every PasswordEntry row in its place: the row at each
    position keeps its [entry_id], [codebook_id] and [created_time], and is
    left exactly as it was unless its [entry_id] is the one asked for.  When
    the method does not return true (not found, a failed statement, an
    exception) no row changes at all; and entry ids being distinct, at most
    one position of the table differs afterwards. *)
Theorem UpdateEntry_frame :
  forall (db : sqlite3) (entry_id : Z) (a k p n : string),
    let run := PasswordVault.UpdateEntry entry_id a k p n db in
    let before := PasswordEntry (db_rows db) in
    let after := PasswordEntry (db_rows (snd run)) in
    Codebook (db_rows (snd run)) = Codebook (db_rows db)
    /\ db_journal (snd run) = db_journal db
    /\ length after = length before
    /\ (forall i r, nth_error before i = Some r ->
          exists r', nth_error after i = Some r'
            /\ PasswordEntryT.entry_id r' = PasswordEntryT.entry_id r
            /\ PasswordEntryT.codebook_id r' = PasswordEntryT.codebook_id r
            /\ PasswordEntryT.created_time r' = PasswordEntryT.created_time r
            /\ (PasswordEntryT.entry_id r <> entry_id -> r' = r))
    /\ (fst run <> Return true -> db_rows (snd run) = db_rows db)
    /\ (NoDup (map PasswordEntryT.entry_id before) ->
        forall i j, nth_error after i <> nth_error before i ->
                    nth_error after j <> nth_error before j -> i = j).
Proof.
  intros db id a k p n run before after.
  destruct (UpdateEntry_rows db id a k p n) as [J R].
  fold run in J, R.
  assert (P : forall i r, nth_error before i = Some r ->
          exists r', nth_error after i = Some r'
            /\ PasswordEntryT.entry_id r' = PasswordEntryT.entry_id r
            /\ PasswordEntryT.codebook_id r' = PasswordEntryT.codebook_id r
            /\ PasswordEntryT.created_time r' = PasswordEntryT.created_time r
            /\ (PasswordEntryT.entry_id r <> id -> r' = r)).
  { intros i r H. unfold after, before in *.
    destruct R as [R | [_ R]]; rewrite R.
    - exists r. repeat split; auto.
    - simpl. exists (update_row (c_str a) (c_str k) (c_str p) (c_str n) id r).
      split; [apply nth_error_update_row; exact H|].
      apply update_row_keys. }
  assert (L : length after = length before).
  { unfold after, before. destruct R as [R | [_ R]]; rewrite R; simpl; auto.
    apply length_map. }
  split; [destruct R as [R | [_ R]]; rewrite R; reflexivity|].
  split; [exact J|].
  split; [exact L|].
  split; [exact P|].
  split.
  { intros NT. destruct R as [R | [E R]]; [exact R|].
    rewrite R. destruct (entry_exists id (db_rows db)) eqn:X; [congruence|].
    unfold entry_exists in X. rewrite (map_update_row_absent _ _ _ _ _ _ X).
    destruct (db_rows db); reflexivity. }
  intros ND i j Hi Hj.
  assert (K : forall i, nth_error after i <> nth_error before i ->
                        nth_error (map PasswordEntryT.entry_id before) i = Some id).
  { intros i0 H0. rewrite nth_error_map.
    destruct (nth_error before i0) as [r|] eqn:B.
    - destruct (P i0 r B) as [r' [A [_ [_ [_ Q]]]]].
      simpl. f_equal.
      destruct (Z.eq_dec (PasswordEntryT.entry_id r) id) as [|NE]; [assumption|].
      exfalso. apply H0. rewrite A, (Q NE). reflexivity.
    - exfalso. apply H0. apply nth_error_None. rewrite L.
      apply nth_error_None. exact B. }
  pose proof (K i Hi) as Ki. pose proof (K j Hj) as Kj.
  apply (proj1 (NoDup_nth_error _) ND); [|congruence].
  apply nth_error_Some. congruence.
Qed.

Lemma UpdateEntry_frame_witness :
  db_rows (snd (PasswordVault.UpdateEntry 8 "example.org" "pk2" "secret2" "" one_entry_db))
  = db_rows one_entry_db.
Proof.
  apply (UpdateEntry_frame one_entry_db 8 "example.org" "pk2" "secret2" "").
  discriminate.
Defined.

(** ** The existence check and AddEntry *)

Lemma step_row_exists id (t : tables) :
  rc_eqb (match select_codebook_exists id t with
          | [] => SQLITE_DONE
          | _ :: _ => SQLITE_ROW
          end) SQLITE_ROW
  = codebook_exists id t.
Proof.
  unfold select_codebook_exists, codebook_exists.
  induction (Codebook t) as [|r l IH]; simpl; [reflexivity|].
  destruct (CodebookT.codebook_id r =? id); simpl; [reflexivity | exact IH].
Qed.

Lemma CheckCodebookExists_unfold db id :
  PasswordVault.CheckCodebookExists id db =
  match fault_at 0 db with
  | Some msg =>
      (Throw (runtime_error ("Prepare failed: " ++ msg)),
       api_exit (ev_prepare false) msg db)
  | None =>
      match fault_at 1 db with
      | Some msg =>
          (Return false,
           api_exit (ev_step false) msg (api_exit (ev_prepare true) not_an_error db))
      | None =>
          (Return (codebook_exists id (db_rows db)),
           api_exit (ev_step true) not_an_error
                    (api_exit (ev_prepare true) not_an_error db))
      end
  end.
Proof.
  unfold PasswordVault.CheckCodebookExists. unfold_api.
  unfold fault_at, next_fault.
  destruct db as [t j c e now fs tr]; simpl.
  destruct fs as [|[m0|] [|[m1|] fs]]; simpl; try reflexivity;
    rewrite step_row_exists; reflexivity.
Qed.

Lemma fault_at_api_exit k e msg db :
  fault_at k (api_exit e msg db) = fault_at (S k) db.
Proof.
  unfold fault_at, api_exit; simpl.
  destruct (db_faults db); simpl; [destruct k; reflexivity | reflexivity].
Qed.

Lemma next_fault_fault_at db : next_fault db = fault_at 0 db.
Proof. unfold next_fault, fault_at. destruct (db_faults db); reflexivity. Qed.

(** The row [AddEntry] appends. *)
Definition new_entry (id : Z) (a k p n : string) (db : sqlite3) : PasswordEntryT.row :=
  PasswordEntryT.mk
    (next_rowid (map PasswordEntryT.entry_id (PasswordEntry (db_rows db))))
    id (c_str a) (c_str k) (c_str p) (c_str n) (db_now db).

Lemma AddEntry_unfold db id a k p n :
  PasswordVault.AddEntry id a k p n db =
  match PasswordVault.CheckCodebookExists id db with
  | (Throw e, db1) => (Throw e, db1)
  | (Return false, db1) => (Return false, db1)
  | (Return true, db1) =>
      match fault_at 0 db1 with
      | Some msg =>
          (Throw (runtime_error ("Prepare failed: " ++ msg)),
           api_exit (ev_prepare false) msg db1)
      | None =>
          match fault_at 1 db1 with
          | Some msg =>
              (Return false,
               api_exit (ev_step false) msg
                        (api_exit (ev_prepare true) not_an_error db1))
          | None =>
              (Return true,
               api_exit (ev_step true) not_an_error
                 (set_changes 1
                    (set_rows
                       (mk_tables (Codebook (db_rows db1))
                          (PasswordEntry (db_rows db1) ++ [new_entry id a k p n db1]))
                       (api_exit (ev_prepare true) not_an_error db1))))
          end
      end
  end.
Proof.
  unfold PasswordVault.AddEntry. unfold bind at 1.
  destruct (PasswordVault.CheckCodebookExists id db) as [[[|]|e] db1]; simpl;
    try reflexivity.
  unfold_api. rewrite next_fault_fault_at.
  destruct (fault_at 0 db1) as [m0|] eqn:F0; simpl; [reflexivity|].
  rewrite next_fault_fault_at, fault_at_api_exit.
  destruct (fault_at 1 db1) as [m1|] eqn:F1; simpl; reflexivity.
Qed.

(** C4 — for a [codebook_id] that names no Codebook row, [AddEntry] creates no
    row (the tables are left as they were), never returns true, and returns
    false, no exception being thrown once the existence check is prepared.
    The field values take no part in any of this: no value of address, public
    key, encrypted password or notes makes [AddEntry] throw
    [invalid_argument], and for an existing codebook on a store that answers
    its four calls any values at all are inserted and true is returned. *)
Theorem AddEntry_referential_guard :
  forall (db : sqlite3) (codebook_id : Z) (a k p n : string),
    let run := PasswordVault.AddEntry codebook_id a k p n db in
    (codebook_exists codebook_id (db_rows db) = false ->
       db_rows (snd run) = db_rows db
       /\ db_journal (snd run) = db_journal db
       /\ fst run <> Return true
       /\ (fault_at 0 db = None -> fst run = Return false))
    /\ is_invalid_argument (fst run) = false
    /\ (codebook_exists codebook_id (db_rows db) = true ->
        fault_at 0 db = None -> fault_at 1 db = None ->
        fault_at 2 db = None -> fault_at 3 db = None ->
        fst run = Return true
        /\ db_rows (snd run) =
             mk_tables (Codebook (db_rows db))
               (PasswordEntry (db_rows db) ++ [new_entry codebook_id a k p n db])).
Proof.
  intros db id a k p n run. unfold run.
  rewrite AddEntry_unfold, CheckCodebookExists_unfold.
  destruct (fault_at 0 db) as [m0|] eqn:F0.
  { simpl. split; [intros _; repeat split; discriminate|].
    split; [reflexivity | discriminate]. }
  destruct (fault_at 1 db) as [m1|] eqn:F1.
  { simpl. split; [intros _; repeat split; discriminate|].
    split; [reflexivity | discriminate]. }
  destruct (codebook_exists id (db_rows db)) eqn:X.
  - rewrite !fault_at_api_exit.
    split; [discriminate|].
    destruct (fault_at 2 db) as [m2|] eqn:F2.
    { simpl. split; [reflexivity | discriminate]. }
    destruct (fault_at 3 db) as [m3|] eqn:F3.
    { simpl. split; [reflexivity | discriminate]. }
    simpl. split; [reflexivity|]. intros _ _ _ _ _. split; reflexivity.
  - simpl. split; [intros _; repeat split; discriminate|].
    split; [reflexivity | discriminate].
Qed.

Lemma AddEntry_referential_guard_witness :
  fst (PasswordVault.AddEntry 2 "" "" "" "" one_entry_db) = Return false
  /\ fst (PasswordVault.AddEntry 1 "" "" "" "" one_entry_db) = Return true.
Proof.
  split.
  - apply (AddEntry_referential_guard one_entry_db 2 "" "" "" ""); reflexivity.
  - apply (AddEntry_referential_guard one_entry_db 1 "" "" "" ""); reflexivity.
Defined.

(** ** CreateCodebook *)

Lemma CreateCodebook_unfold db username name :
  PasswordVault.ValidateCodebookName name = true ->
  PasswordVault.CreateCodebook username name db =
  match fault_at 0 db with
  | Some msg =>
      (Throw (runtime_error ("Prepare failed: " ++ msg)),
       api_exit (ev_prepare false) msg db)
  | None =>
      match fault_at 1 db with
      | Some msg =>
          (Return false,
           api_exit (ev_step false) msg (api_exit (ev_prepare true) not_an_error db))
      | None =>
          let w := run_write (InsertCodebook (c_str username) (c_str name))
                             (db_now db) (db_rows db) in
          (Return true,
           api_exit (ev_step true) not_an_error
             (set_changes (snd w)
                (set_rows (fst w) (api_exit (ev_prepare true) not_an_error db))))
      end
  end.
Proof.
  intros V. unfold PasswordVault.CreateCodebook. rewrite V.
  change (negb true) with false. unfold_api. cbv beta iota.
  rewrite next_fault_fault_at.
  destruct (fault_at 0 db) as [m0|] eqn:F0; [reflexivity|].
  change (negb (rc_eqb SQLITE_OK SQLITE_OK)) with false. cbv beta iota.
  rewrite next_fault_fault_at, fault_at_api_exit.
  destruct (fault_at 1 db) as [m1|] eqn:F1; [reflexivity|].
  change (db_now (api_exit (ev_prepare true) not_an_error db)) with (db_now db).
  change (db_rows (api_exit (ev_prepare true) not_an_error db)) with (db_rows db).
  destruct (run_write _ _ _) as [t c]. reflexivity.
Qed.

(** A validated name holds no NUL byte, so it reaches the store whole. *)
Lemma c_str_no_nul (s : string) :
  forallb (fun c => negb (Ascii.eqb c zero)) (list_ascii_of_string s) = true ->
  c_str s = s.
Proof.
  induction s as [|c s IH]; simpl; [reflexivity|].
  intros H. apply andb_true_iff in H as [H1 H2].
  apply negb_true_iff in H1. rewrite H1, (IH H2). reflexivity.
Qed.

Lemma allowed_char_not_nul c :
  PasswordVault.allowed_char c = true -> negb (Ascii.eqb c zero) = true.
Proof.
  intros H. destruct (Ascii.eqb c zero) eqn:E; [|reflexivity].
  apply Ascii.eqb_eq in E. subst c. discriminate H.
Qed.

Lemma valid_name_c_str name :
  PasswordVault.ValidateCodebookName name = true -> c_str name = name.
Proof.
  unfold PasswordVault.ValidateCodebookName. intros H.
  apply andb_true_iff in H as [_ H].
  apply c_str_no_nul.
  rewrite forallb_forall in *. intros c Hc. apply allowed_char_not_nul, H, Hc.
Qed.

(** The unique constraint of the schema: no two Codebook rows share
    (username, codebook_name). *)
Definition codebook_key (r : CodebookT.row) : string * string :=
  (CodebookT.username r, CodebookT.codebook_name r).

Definition unique_codebooks (t : tables) : Prop :=
  NoDup (map codebook_key (Codebook t)).

Definition codebooks_named (u n : string) (t : tables) : list CodebookT.row :=
  filter (same_codebook_key u n) (Codebook t).

Lemma same_codebook_key_true u n r :
  same_codebook_key u n r = true <-> codebook_key r = (u, n).
Proof.
  unfold same_codebook_key, codebook_key.
  rewrite andb_true_iff, !String.eqb_eq. split.
  - intros [-> ->]; reflexivity.
  - intros H; inversion H; auto.
Qed.

Lemma filter_key_absent u n (l : list CodebookT.row) :
  ~ In (u, n) (map codebook_key l) -> filter (same_codebook_key u n) l = [].
Proof.
  induction l as [|r l IH]; simpl; [reflexivity|].
  intros H. destruct (same_codebook_key u n r) eqn:E.
  - apply same_codebook_key_true in E. exfalso. apply H. left. exact E.
  - apply IH. intros I. apply H. right. exact I.
Qed.

Lemma unique_filter_le1 u n (l : list CodebookT.row) :
  NoDup (map codebook_key l) ->
  (length (filter (same_codebook_key u n) l) <= 1)%nat.
Proof.
  induction l as [|r l IH]; simpl; [lia|].
  intros ND. inversion ND as [|x xs NI ND']; subst.
  destruct (same_codebook_key u n r) eqn:E.
  - apply same_codebook_key_true in E. rewrite E in NI.
    rewrite (filter_key_absent u n l NI). simpl. lia.
  - apply IH. exact ND'.
Qed.

Lemma existsb_filter_nonempty {A : Type} (f : A -> bool) (l : list A) :
  existsb f l = true -> (1 <= length (filter f l))%nat.
Proof.
  induction l as [|x l IH]; simpl; [discriminate|].
  destruct (f x); simpl; [lia | exact IH].
Qed.

Lemma existsb_false_filter {A : Type} (f : A -> bool) (l : list A) :
  existsb f l = false -> filter f l = [].
Proof.
  induction l as [|x l IH]; simpl; [reflexivity|].
  destruct (f x); simpl; [discriminate | exact IH].
Qed.

Lemma existsb_key_false_notin u n (l : list CodebookT.row) :
  existsb (same_codebook_key u n) l = false -> ~ In (u, n) (map codebook_key l).
Proof.
  intros H I. apply in_map_iff in I as [r [K I]].
  apply same_codebook_key_true in K.
  assert (existsb (same_codebook_key u n) l = true)
    by (apply existsb_exists; exists r; auto).
  congruence.
Qed.

(** What the conflict-ignoring insert leaves behind. *)
Lemma insert_codebook_spec u n now t :
  unique_codebooks t ->
  let w := run_write (InsertCodebook u n) now t in
  unique_codebooks (fst w)
  /\ length (codebooks_named u n (fst w)) = 1%nat
  /\ run_write (InsertCodebook u n) now (fst w) = (fst w, 0).
Proof.
  unfold unique_codebooks, codebooks_named. intros U. simpl.
  destruct (existsb (same_codebook_key u n) (Codebook t)) eqn:X; simpl.
  - rewrite X. split; [exact U|]. split; [|reflexivity].
    pose proof (existsb_filter_nonempty _ _ X).
    pose proof (unique_filter_le1 u n _ U). lia.
  - assert (K : same_codebook_key u n
                  (CodebookT.mk (next_rowid (map CodebookT.codebook_id (Codebook t)))
                                u n now) = true).
    { apply same_codebook_key_true. reflexivity. }
    rewrite existsb_app, X. simpl. rewrite K. simpl.
    split.
    + rewrite map_app. simpl. apply NoDup_app_remove_l with (l := []). simpl.
      apply Permutation_NoDup with (l := (u, n) :: map codebook_key (Codebook t)).
      * apply Permutation_cons_append.
      * constructor; [apply existsb_key_false_notin; exact X | exact U].
    + split; [|reflexivity].
      rewrite filter_app, (existsb_false_filter _ _ X). simpl. rewrite K. reflexivity.
Qed.

(** C2 — calling [CreateCodebook] twice with the same owner and the same
    valid name, on a store that answers its calls and whose Codebook table
    satisfies the unique constraint: both calls return true, after the first
    call there is exactly one Codebook row for the pair (the owner as the
    store receives it, its C string), and the second call leaves the rows
    and the transaction state exactly as the first call left them. *)
Theorem CreateCodebook_idempotent :
  forall (db : sqlite3) (owner name : string),
    PasswordVault.ValidateCodebookName name = true ->
    healthy db ->
    unique_codebooks (db_rows db) ->
    let first := PasswordVault.CreateCodebook owner name db in
    let second := PasswordVault.CreateCodebook owner name (snd first) in
    fst first = Return true
    /\ fst second = Return true
    /\ length (codebooks_named (c_str owner) name (db_rows (snd first))) = 1%nat
    /\ length (codebooks_named (c_str owner) name (db_rows (snd second))) = 1%nat
    /\ db_rows (snd second) = db_rows (snd first)
    /\ db_journal (snd second) = db_journal (snd first)
    /\ unique_codebooks (db_rows (snd second)).
Proof.
  intros db owner name V H U first second.
  pose proof (insert_codebook_spec (c_str owner) name (db_now db) (db_rows db) U)
    as [U1 [L1 I1]].
  assert (E1 : first =
    (Return true,
     api_exit (ev_step true) not_an_error
       (set_changes (snd (run_write (InsertCodebook (c_str owner) name)
                                    (db_now db) (db_rows db)))
          (set_rows (fst (run_write (InsertCodebook (c_str owner) name)
                                    (db_now db) (db_rows db)))
             (api_exit (ev_prepare true) not_an_error db))))).
  { unfold first. rewrite (CreateCodebook_unfold db owner name V).
    rewrite !healthy_fault_at by exact H.
    rewrite (valid_name_c_str name V). reflexivity. }
  assert (H1 : healthy (snd first)).
  { rewrite E1. unfold healthy in *. simpl.
    destruct (db_faults db) as [|f0 [|f1 fs]]; simpl in *; auto.
    apply andb_true_iff in H as [_ H]. apply andb_true_iff in H as [_ H]. exact H. }
  assert (R1 : db_rows (snd first)
               = fst (run_write (InsertCodebook (c_str owner) name)
                                (db_now db) (db_rows db))).
  { rewrite E1. reflexivity. }
  assert (N1 : db_now (snd first) = db_now db) by (rewrite E1; reflexivity).
  assert (E2 : second =
    (Return true,
     api_exit (ev_step true) not_an_error
       (set_changes 0
          (set_rows (db_rows (snd first))
             (api_exit (ev_prepare true) not_an_error (snd first)))))).
  { unfold second. rewrite (CreateCodebook_unfold (snd first) owner name V).
    rewrite !healthy_fault_at by exact H1.
    rewrite (valid_name_c_str name V), N1, R1, I1. reflexivity. }
  rewrite E2. simpl. rewrite R1.
  repeat split; auto. rewrite E1. reflexivity.
Qed.

Lemma CreateCodebook_idempotent_witness :
  length (codebooks_named "alice" "mail"
            (db_rows (snd (PasswordVault.CreateCodebook "alice" "mail"
               (snd (PasswordVault.CreateCodebook "alice" "mail" empty_db)))))) = 1%nat.
Proof.
  apply (CreateCodebook_idempotent empty_db "alice" "mail");
    [reflexivity | reflexivity | constructor].
Defined.

(** ** Ordering by creation time *)

Lemma ascii_compare_eq a b : Ascii.compare a b = Eq <-> a = b.
Proof.
  split; [apply Ascii.compare_eq_iff|].
  intros ->. unfold Ascii.compare. apply N.compare_refl.
Qed.

Lemma string_compare_refl s : String.compare s s = Eq.
Proof.
  induction s as [|c s IH]; simpl; [reflexivity|].
  rewrite (proj2 (ascii_compare_eq c c) eq_refl). exact IH.
Qed.

Lemma ascii_compare_trans x y z :
  Ascii.compare x y <> Gt -> Ascii.compare y z <> Gt ->
  (Ascii.compare x y = Lt \/ Ascii.compare y z = Lt -> Ascii.compare x z = Lt)
  /\ (Ascii.compare x y = Eq -> Ascii.compare y z = Eq -> Ascii.compare x z = Eq).
Proof.
  unfold Ascii.compare.
  rewrite !N.compare_lt_iff, !N.compare_eq_iff.
  intros A B. apply N.compare_ngt_iff in A. apply N.compare_ngt_iff in B.
  split; lia.
Qed.

Lemma string_leb_trans a b c :
  String.leb a b = true -> String.leb b c = true -> String.leb a c = true.
Proof.
  unfold String.leb. revert b c.
  induction a as [|x a IH]; intros [|y b] [|z c]; simpl; try congruence.
  destruct (Ascii.compare x y) eqn:XY; try congruence;
    destruct (Ascii.compare y z) eqn:YZ; try congruence;
    (destruct (ascii_compare_trans x y z) as [L E];
     [congruence | congruence |]).
  - rewrite (E XY YZ). apply IH.
  - rewrite L by auto. reflexivity.
  - rewrite L by auto. reflexivity.
  - rewrite L by auto. reflexivity.
Qed.


Section NewestFirst.
Context {A : Type} (key : A -> string).

(** [a] may stand before [b] in a listing by descending key. *)
Definition newest_first (a b : A) : Prop := String.leb (key b) (key a) = true.


Lemma insert_desc_perm x l : Permutation (insert_desc key x l) (x :: l).
Proof.
  induction l as [|y l IH]; simpl; [reflexivity|].
  destruct (String.leb (key y) (key x)); [reflexivity|].
  rewrite IH. apply perm_swap.
Qed.

Lemma order_by_desc_perm l : Permutation (order_by_desc key l) l.
Proof.
  induction l as [|x l IH]; simpl; [reflexivity|].
  rewrite insert_desc_perm, IH. reflexivity.
Qed.

Lemma insert_desc_sorted x l :
  StronglySorted newest_first l -> StronglySorted newest_first (insert_desc key x l).
Proof.
  induction l as [|y l IH]; simpl; intros S.
  - constructor; [constructor | constructor].
  - inversion S as [|y' l' S' F]; subst.
    destruct (String.leb (key y) (key x)) eqn:E.
    + constructor; [exact S|].
      constructor; [exact E|].
      eapply Forall_impl; [|exact F].
      intros z Hz. unfold newest_first in *. eapply string_leb_trans; eassumption.
    + constructor; [apply IH; exact S'|].
      eapply Permutation_Forall.
      * symmetry. apply insert_desc_perm.
      * constructor; [|exact F].
        unfold newest_first.
        destruct (String.leb_total (key x) (key y)); congruence.
Qed.

Lemma order_by_desc_sorted l : StronglySorted newest_first (order_by_desc key l).
Proof.
  induction l as [|x l IH]; simpl; [constructor | apply insert_desc_sorted; exact IH].
Qed.

End NewestFirst.

(** ** Reading a result set *)

Lemma while_step_row_healthy {R T : Type} (read : R -> T) (rows : list R) db :
  healthy db ->
  exists db',
    while_step_row read rows db = (Return (map read rows), db')
    /\ db_rows db' = db_rows db
    /\ db_journal db' = db_journal db
    /\ healthy db'.
Proof.
  revert db. induction rows as [|r rows IH]; intros db H; simpl.
  - unfold bind, sqlite3_step_row. rewrite (healthy_next_fault db H). simpl.
    eexists; split; [reflexivity|].
    repeat split; auto. apply healthy_api_exit; exact H.
  - unfold bind at 1. unfold sqlite3_step_row. rewrite (healthy_next_fault db H). simpl.
    destruct (IH (api_exit (ev_step true) not_an_error db)) as [db' [E [R1 [J1 H1]]]].
    { apply healthy_api_exit; exact H. }
    unfold bind. rewrite E. simpl.
    exists db'. repeat split; auto.
Qed.

(** Whatever the faults, a listing delivers a prefix of the result set and
    writes nothing. *)
Lemma while_step_row_prefix {R T : Type} (read : R -> T) (rows : list R) db :
  exists n db',
    while_step_row read rows db = (Return (map read (firstn n rows)), db')
    /\ db_rows db' = db_rows db
    /\ db_journal db' = db_journal db.
Proof.
  revert db. induction rows as [|r rows IH]; intros db; simpl.
  - unfold bind, sqlite3_step_row. exists 0%nat.
    destruct (next_fault db); simpl; eexists; repeat split; reflexivity.
  - unfold bind at 1. unfold sqlite3_step_row.
    destruct (next_fault db); simpl.
    + exists 0%nat. eexists; repeat split; reflexivity.
    + destruct (IH (api_exit (ev_step true) not_an_error db)) as [n [db' [E [R1 J1]]]].
      unfold bind. rewrite E. simpl.
      exists (S n), db'. repeat split; auto.
Qed.



Lemma GetUserCodebooks_run db username :
  healthy db ->
  exists db',
    PasswordVault.GetUserCodebooks username db
    = (Return (map PasswordVault.read_codebook
                   (select_user_codebooks (c_str username) (db_rows db))), db')
    /\ db_rows db' = db_rows db.
Proof.
  intros H. unfold PasswordVault.GetUserCodebooks.
  unfold bind at 1. unfold sqlite3_prepare_v2. rewrite (healthy_next_fault db H).
  simpl.
  unfold bind at 1. unfold result_set. simpl.
  destruct (while_step_row_healthy PasswordVault.read_codebook
              (select_user_codebooks (c_str username) (db_rows db))
              (api_exit (ev_prepare true) not_an_error db))
    as [db' [E [R1 _]]].
  { apply healthy_api_exit; exact H. }
  unfold bind at 1. simpl in E. rewrite E. simpl.
  exists db'. split; [reflexivity | exact R1].
Qed.

Lemma GetUserCodebooks_healthy db username :
  healthy db ->
  fst (PasswordVault.GetUserCodebooks username db)
  = Return (map PasswordVault.read_codebook
                (select_user_codebooks (c_str username) (db_rows db)))
  /\ db_rows (snd (PasswordVault.GetUserCodebooks username db)) = db_rows db.
Proof.
  intros H. destruct (GetUserCodebooks_run db username H) as [db' [E R]].
  rewrite E. simpl. auto.
Qed.

Lemma GetEntries_run db id f page page_size :
  healthy db ->
  exists db',
    PasswordVault.GetEntries id f page page_size db
    = (Return (map PasswordVault.read_entry
                   (select_entries id (c_str ("%" ++ f ++ "%")) page_size
                                   (int_wrap (page * page_size)) (db_rows db))), db')
    /\ db_rows db' = db_rows db.
Proof.
  intros H. unfold PasswordVault.GetEntries.
  unfold bind at 1. unfold sqlite3_prepare_v2. rewrite (healthy_next_fault db H).
  simpl.
  unfold bind at 1. unfold result_set. simpl.
  destruct (while_step_row_healthy PasswordVault.read_entry
              (select_entries id (c_str (String "%" (f ++ "%"))) page_size
                 (int_wrap (page * page_size)) (db_rows db))
              (api_exit (ev_prepare true) not_an_error db))
    as [db' [E [R1 _]]].
  { apply healthy_api_exit; exact H. }
  unfold bind at 1. simpl in E. rewrite E. simpl.
  exists db'. split; [reflexivity | exact R1].
Qed.

Lemma GetEntries_healthy db id f page page_size :
  healthy db ->
  fst (PasswordVault.GetEntries id f page page_size db)
  = Return (map PasswordVault.read_entry
                (select_entries id (c_str ("%" ++ f ++ "%")) page_size
                                (int_wrap (page * page_size)) (db_rows db)))
  /\ db_rows (snd (PasswordVault.GetEntries id f page page_size db)) = db_rows db.
Proof.
  intros H. destruct (GetEntries_run db id f page page_size H) as [db' [E R]].
  rewrite E. simpl. auto.
Qed.

(** ** GetUserCodebooks *)

Definition owned_by (u : string) (r : CodebookT.row) : bool :=
  String.eqb (CodebookT.username r) u.

Lemma filter_nil_iff {A : Type} (f : A -> bool) (l : list A) :
  filter f l = [] <-> forall x, In x l -> f x = false.
Proof.
  induction l as [|x l IH]; simpl.
  - split; [intros _ y [] | reflexivity].
  - destruct (f x) eqn:E.
    + split; [discriminate|]. intros H. specialize (H x (or_introl eq_refl)). congruence.
    + rewrite IH. split.
      * intros H y [<-|I]; auto.
      * intros H y I. apply H. right. exact I.
Qed.

Lemma map_eq_nil_iff {A B : Type} (f : A -> B) (l : list A) : map f l = [] <-> l = [].
Proof. destruct l; simpl; split; congruence. Qed.

(** A vault in which one codebook was created for the empty owner. *)
Definition empty_owner_db : sqlite3 :=
  snd (PasswordVault.CreateCodebook "" "vault" empty_db).

(** C9, as stated, fails: [CreateCodebook] accepts the empty owner, and
    [GetUserCodebooks ""] then lists that codebook instead of yielding the
    empty sequence. *)
Lemma GetUserCodebooks_empty_owner_counterexample :
  fst (PasswordVault.CreateCodebook "" "vault" empty_db) = Return true
  /\ fst (PasswordVault.GetUserCodebooks "" empty_owner_db)
     = Return [PasswordVault.Codebook.mk 1 "vault" "2024-01-01 00:00:00"]
  /\ fst (PasswordVault.GetUserCodebooks "" empty_owner_db) <> Return [].
Proof. repeat split. vm_compute. discriminate. Qed.

(** C9 (amended) — on a store that answers its calls, [GetUserCodebooks owner]
    returns the codebooks whose owner is [owner] (as the store receives it),
    all of them and no others, newest first, and changes no row.  For the
    empty owner the result is the empty sequence exactly when no Codebook row
    has the empty string as owner; it is a sequence in every case, never an
    exception. *)
Theorem GetUserCodebooks_lists_owner :
  forall (db : sqlite3) (owner : string),
    healthy db ->
    (exists rows,
        fst (PasswordVault.GetUserCodebooks owner db)
        = Return (map PasswordVault.read_codebook rows)
        /\ Permutation rows (filter (owned_by (c_str owner)) (Codebook (db_rows db)))
        /\ StronglySorted (newest_first CodebookT.created_time) rows)
    /\ db_rows (snd (PasswordVault.GetUserCodebooks owner db)) = db_rows db
    /\ (exists listing, fst (PasswordVault.GetUserCodebooks "" db) = Return listing)
    /\ (fst (PasswordVault.GetUserCodebooks "" db) = Return [] <->
        forall r, In r (Codebook (db_rows db)) -> CodebookT.username r <> "").
Proof.
  intros db owner H.
  destruct (GetUserCodebooks_healthy db owner H) as [E R].
  destruct (GetUserCodebooks_healthy db "" H) as [E0 _].
  split.
  { exists (select_user_codebooks (c_str owner) (db_rows db)).
    split; [exact E|]. split.
    - apply order_by_desc_perm.
    - apply order_by_desc_sorted. }
  split; [exact R|].
  split; [eexists; exact E0|].
  rewrite E0. simpl c_str. split.
  - intros N. inversion N as [N'].
    apply map_eq_nil_iff in N'. unfold select_user_codebooks in N'.
    assert (F : filter (fun r => String.eqb (CodebookT.username r) "")
                       (Codebook (db_rows db)) = []).
    { apply Permutation_nil. rewrite <- N'. apply order_by_desc_perm. }
    intros r I. rewrite filter_nil_iff in F. apply String.eqb_neq. apply F. exact I.
  - intros N. f_equal. unfold select_user_codebooks.
    assert (F : filter (fun r => String.eqb (CodebookT.username r) "")
                       (Codebook (db_rows db)) = []).
    { apply filter_nil_iff. intros r I. apply String.eqb_neq. apply N. exact I. }
    rewrite F. reflexivity.
Qed.

Lemma GetUserCodebooks_lists_owner_witness :
  db_rows (snd (PasswordVault.GetUserCodebooks "user" one_entry_db))
  = db_rows one_entry_db.
Proof.
  apply (GetUserCodebooks_lists_owner one_entry_db "user"). reflexivity.
Defined.


(** ** LIKE patterns *)

Lemma like_chars_percent_unfold q s :
  like_chars (37%N :: q) s
  = like_chars q s || match s with
                      | [] => false
                      | _ :: s' => like_chars (37%N :: q) s'
                      end.
Proof. destruct s; reflexivity. Qed.

Lemma like_chars_plain_unfold p q s :
  (p =? 37)%N = false ->
  like_chars (p :: q) s
  = match s with
    | [] => false
    | c :: s' => ((p =? 95)%N || like_char p c) && like_chars q s'
    end.
Proof. intros H. simpl. rewrite H. reflexivity. Qed.

(** A leading [%] lets the rest of the pattern start anywhere. *)
Lemma like_chars_percent q s :
  like_chars (37%N :: q) s = true <->
  exists pre post, s = (pre ++ post)%list /\ like_chars q post = true.
Proof.
  induction s as [|c s IH]; rewrite like_chars_percent_unfold, orb_true_iff.
  - split.
    + intros [H | H]; [|discriminate]. exists [], []. auto.
    + intros [pre [post [E H]]]. left.
      destruct pre; [|discriminate]. simpl in E. subst post. exact H.
  - rewrite IH. split.
    + intros [H | [pre [post [E H]]]].
      * exists [], (c :: s). auto.
      * exists (c :: pre), post. simpl. rewrite E. auto.
    + intros [pre [post [E H]]].
      destruct pre as [|d pre]; simpl in E.
      * left. subst post. exact H.
      * right. inversion E; subst. exists pre, post. auto.
Qed.

Lemma like_chars_any s : like_chars [37%N] s = true.
Proof.
  apply like_chars_percent. exists s, []. split; [|reflexivity].
  symmetry. apply app_nil_r.
Qed.


(** A filter that holds no LIKE wildcard and no NUL byte. *)
Definition plain_char (c : ascii) : bool :=
  negb (Ascii.eqb c "%") && negb (Ascii.eqb c "_") && negb (Ascii.eqb c zero).

Definition plain_filter (f : string) : bool :=
  forallb plain_char (list_ascii_of_string f).

(** The pattern built from the filter, two bytes longer, is within the
    length LIKE accepts. *)
Definition within_like_limit (f : string) : Prop :=
  (N.of_nat (String.length f) + 2 <= LIKE_PATTERN_LENGTH)%N.

(** [m] is [f] character for character, up to the case of ASCII letters. *)
Definition same_text (f m : list N) : Prop :=
  Forall2 (fun p c => like_char p c = true) f m.

(** [f] occurs in [a], both read as LIKE reads them: as UTF-8 characters up
    to the first NUL, ASCII letters compared regardless of case. *)
Definition occurs_in (f a : string) : Prop :=
  exists pre mid post,
    utf8_chars None (c_str a) = (pre ++ mid ++ post)%list
    /\ same_text (utf8_chars None f) mid.

Lemma utf8_finish_high c : (128 <= utf8_finish c)%N.
Proof.
  unfold utf8_finish.
  destruct (c <? 128)%N eqn:E; simpl; [lia|].
  apply N.ltb_ge in E.
  destruct (_ || _); lia.
Qed.

Lemma utf8_chars_percent pending f :
  utf8_chars pending (f ++ "%") = (utf8_chars pending f ++ [37%N])%list.
Proof.
  revert pending. induction f as [|b f IH]; intros pending.
  - destruct pending; reflexivity.
  - simpl append. simpl utf8_chars.
    destruct pending as [c|].
    + destruct (utf8_is_cont (N_of_ascii b)); [apply IH|].
      destruct (N_of_ascii b <? 192)%N; simpl; rewrite IH; reflexivity.
    + destruct (N_of_ascii b <? 192)%N; simpl; rewrite IH; reflexivity.
Qed.

Definition plain_code (c : N) : Prop := c <> 37%N /\ c <> 95%N.

Lemma plain_char_code b : plain_char b = true -> plain_code (N_of_ascii b).
Proof.
  unfold plain_char, plain_code. rewrite !andb_true_iff, !negb_true_iff.
  intros [[P1 P2] _]. apply Ascii.eqb_neq in P1, P2.
  split; intros E; [apply P1 | apply P2];
    rewrite <- (ascii_N_embedding b), E; reflexivity.
Qed.

Lemma utf8_chars_plain pending f :
  plain_filter f = true -> Forall plain_code (utf8_chars pending f).
Proof.
  unfold plain_filter. revert pending.
  assert (F : forall c, plain_code (utf8_finish c)).
  { intros c. pose proof (utf8_finish_high c). unfold plain_code. lia. }
  induction f as [|b f IH]; intros pending PF.
  - destruct pending; simpl; auto.
  - simpl in PF. apply andb_true_iff in PF as [PC PF].
    apply plain_char_code in PC. simpl utf8_chars.
    destruct pending as [c|].
    + destruct (utf8_is_cont (N_of_ascii b)); [apply IH; exact PF|].
      constructor; [apply F|].
      destruct (N_of_ascii b <? 192)%N; [constructor; [exact PC|]|]; apply IH; exact PF.
    + destruct (N_of_ascii b <? 192)%N; [constructor; [exact PC|]|]; apply IH; exact PF.
Qed.

Lemma like_chars_plain_prefix f s :
  Forall plain_code f ->
  like_chars (f ++ [37%N]) s = true <->
  exists mid post, s = (mid ++ post)%list /\ same_text f mid.
Proof.
  unfold same_text. revert s.
  induction f as [|p f IH]; intros s PF.
  - simpl app. split.
    + intros _. exists [], s. simpl. auto.
    + intros _. apply like_chars_any.
  - inversion PF as [|? ? [P1 P2] PF']; subst.
    apply N.eqb_neq in P1, P2.
    simpl app. rewrite (like_chars_plain_unfold p (f ++ [37%N]) s P1), P2. simpl orb.
    destruct s as [|c s].
    + split; [discriminate|].
      intros [mid [post [E T]]]. inversion T; subst. discriminate.
    + rewrite andb_true_iff, (IH s PF'). split.
      * intros [L [mid [post [E T]]]]. exists (c :: mid), post.
        simpl. rewrite E. auto.
      * intros [mid [post [E T]]].
        inversion T as [|? d ? mid' L T']; subst.
        simpl in E. inversion E; subst.
        split; [exact L|]. exists mid', post. auto.
Qed.

Lemma c_str_plain_pattern f :
  plain_filter f = true -> c_str ("%" ++ f ++ "%") = "%" ++ f ++ "%".
Proof.
  intros PF. apply c_str_no_nul. simpl.
  unfold plain_filter in PF. induction f as [|p f IH]; simpl in *; [reflexivity|].
  apply andb_true_iff in PF as [PC PF].
  unfold plain_char in PC. rewrite !andb_true_iff in PC.
  destruct PC as [_ PC]. rewrite PC. simpl. apply IH. exact PF.
Qed.

Lemma c_str_idem s : c_str (c_str s) = c_str s.
Proof.
  induction s as [|c s IH]; simpl; [reflexivity|].
  destruct (Ascii.eqb c zero) eqn:E; simpl; [reflexivity|].
  rewrite E, IH. reflexivity.
Qed.

Lemma filter_pattern_length f : String.length ("%" ++ f ++ "%") = S (S (String.length f)).
Proof.
  simpl. f_equal. induction f as [|c f IH]; simpl; [reflexivity|]. rewrite IH. reflexivity.
Qed.

(** For a plain filter within the length limit, the pattern the code builds
    is a substring test on characters. *)
Lemma like_filter_pattern f a :
  plain_filter f = true ->
  within_like_limit f ->
  like (c_str ("%" ++ f ++ "%")) a = true <-> occurs_in f a.
Proof.
  intros PF WL. rewrite (c_str_plain_pattern f PF).
  unfold like. rewrite (c_str_plain_pattern f PF), filter_pattern_length.
  assert (L : (N.of_nat (S (S (String.length f))) <=? LIKE_PATTERN_LENGTH)%N = true).
  { apply N.leb_le. unfold within_like_limit in WL. lia. }
  rewrite L. simpl andb.
  change ("%" ++ f ++ "%") with (String "%" (f ++ "%")).
  change (utf8_chars None (String "%" (f ++ "%")))
    with (37%N :: utf8_chars None (f ++ "%")).
  rewrite utf8_chars_percent.
  change (like_chars (37%N :: (utf8_chars None f ++ [37%N])%list)
                     (utf8_chars None (c_str a)) = true <-> occurs_in f a).
  rewrite like_chars_percent.
  pose proof (utf8_chars_plain None f PF) as PC.
  unfold occurs_in. split.
  - intros [pre [rest [E M]]].
    apply (like_chars_plain_prefix _ rest PC) in M as [mid [post [E' T]]].
    exists pre, mid, post. subst. auto.
  - intros [pre [mid [post [E T]]]].
    exists pre, (mid ++ post)%list. split; [exact E|].
    apply (like_chars_plain_prefix _ _ PC). exists mid, post. auto.
Qed.

(** ** GetEntries *)

Lemma int_wrap_small z : INT_MIN <= z <= INT_MAX -> int_wrap z = z.
Proof.
  unfold INT_MIN, INT_MAX, int_wrap. intros H.
  rewrite Z.mod_small by lia. lia.
Qed.

Lemma limit_offset_window {A : Type} (limit offset : Z) (l : list A) :
  0 <= limit ->
  limit_offset limit offset l = firstn (Z.to_nat limit) (skipn (Z.to_nat offset) l).
Proof.
  intros H. unfold limit_offset.
  destruct (limit <? 0) eqn:E; [apply Z.ltb_lt in E; lia | reflexivity].
Qed.



(** The page the query selects, once page and page size are in range. *)
Lemma select_entries_page id pattern page page_size t :
  0 <= page -> 0 <= page_size -> page * page_size <= INT_MAX ->
  select_entries id pattern page_size (int_wrap (page * page_size)) t
  = firstn (Z.to_nat page_size)
      (skipn (Z.to_nat (page * page_size))
         (order_by_desc PasswordEntryT.created_time
            (filter (entry_matches id pattern) (PasswordEntry t)))).
Proof.
  intros P S B. unfold select_entries.
  rewrite int_wrap_small by (unfold INT_MIN; nia).
  apply limit_offset_window. exact S.
Qed.



(** A codebook with five entries, stored out of creation order, next to an
    entry of another codebook. *)
Definition entry_c := PasswordEntryT.mk 1 1 "c.example.com" "pk" "s3" "" "2024-01-02 00:00:03".
Definition entry_a := PasswordEntryT.mk 2 1 "a.example.com" "pk" "s1" "" "2024-01-02 00:00:01".
Definition entry_bank := PasswordEntryT.mk 3 2 "bank.example" "pk" "s0" "" "2024-01-02 00:00:02".
Definition entry_e := PasswordEntryT.mk 4 1 "e.example.com" "pk" "s5" "" "2024-01-02 00:00:05".
Definition entry_b := PasswordEntryT.mk 5 1 "b.example.com" "pk" "s2" "" "2024-01-02 00:00:02".
Definition entry_d := PasswordEntryT.mk 6 1 "d.example.com" "pk" "s4" "" "2024-01-02 00:00:04".

Definition five_entries_db : sqlite3 :=
  mk_sqlite3
    (mk_tables
       [CodebookT.mk 1 "user" "mail" "2024-01-01 00:00:00";
        CodebookT.mk 2 "user" "bank" "2024-01-01 00:00:01"]
       [entry_c; entry_a; entry_bank; entry_e; entry_b; entry_d])
    None 0 not_an_error "2024-01-03 00:00:00" [] [].




Lemma in_firstn {A : Type} (n : nat) (l : list A) x : In x (firstn n l) -> In x l.
Proof.
  revert l. induction n as [|n IH]; intros [|y l]; simpl; try tauto.
  intros [->|I]; auto.
Qed.

Lemma in_skipn {A : Type} (n : nat) (l : list A) x : In x (skipn n l) -> In x l.
Proof.
  revert l. induction n as [|n IH]; intros [|y l]; simpl; try tauto.
  intros I. right. apply IH. exact I.
Qed.

(** [f] occurs in [a] byte for byte. *)
Definition occurs_literally (f a : string) : bool :=
  match String.index 0 f a with
  | Some _ => true
  | None => false
  end.

(** An address with a letter outside ASCII, [a], [e] with an acute accent
    (the bytes 0xC3 0xA9) and [b]; and a text of 49999 letters. *)
Definition accent_address : string :=
  String "a" (String (ascii_of_N 195) (String (ascii_of_N 169) "b")).

Definition long_text : string :=
  string_of_list_ascii (repeat "a"%char (N.to_nat 49999)).

Definition other_addresses_db : sqlite3 :=
  mk_sqlite3
    (mk_tables
       [CodebookT.mk 1 "user" "mail" "2024-01-01 00:00:00"]
       [PasswordEntryT.mk 1 1 accent_address "pk" "secret" "" "2024-01-02 00:00:00";
        PasswordEntryT.mk 2 1 long_text "pk" "secret" "" "2024-01-02 00:00:01"])
    None 0 not_an_error "2024-01-03 00:00:00" [] [].

(** C8, as stated, fails.  The filter is wrapped in [%] and handed to LIKE
    as it is: ["_"] stands for any one character and ["%"] for any run, so
    both select [example.com], in which neither occurs; LIKE also ignores the
    case of ASCII letters, so ["EXAMPLE"] selects it as well; and the page
    bounds what is returned, so a page of size 0 returns nothing although
    ["example"] occurs.  LIKE compares characters, not bytes: the byte 0xC3
    alone is no character of the address [accent_address], of which it is a
    byte.  And LIKE refuses a pattern of more than 50000 bytes: a filter of
    49999 letters selects nothing, not even the address equal to it. *)
Lemma GetEntries_filter_counterexample :
  (fst (PasswordVault.GetEntries 1 "_" 0 10 one_entry_db)
   = Return [PasswordVault.PasswordEntry.mk 7 "example.com" "pk" "secret" ""
                                            "2024-01-02 00:00:00"]
   /\ occurs_literally "_" "example.com" = false)
  /\ (fst (PasswordVault.GetEntries 1 "%" 0 10 one_entry_db)
      = Return [PasswordVault.PasswordEntry.mk 7 "example.com" "pk" "secret" ""
                                               "2024-01-02 00:00:00"]
      /\ occurs_literally "%" "example.com" = false)
  /\ (fst (PasswordVault.GetEntries 1 "EXAMPLE" 0 10 one_entry_db)
      = Return [PasswordVault.PasswordEntry.mk 7 "example.com" "pk" "secret" ""
                                               "2024-01-02 00:00:00"]
      /\ occurs_literally "EXAMPLE" "example.com" = false)
  /\ (fst (PasswordVault.GetEntries 1 "example" 0 0 one_entry_db) = Return []
      /\ occurs_literally "example" "example.com" = true)
  /\ (fst (PasswordVault.GetEntries 1 (String (ascii_of_N 195) "") 0 10
             other_addresses_db) = Return []
      /\ occurs_literally (String (ascii_of_N 195) "") accent_address = true)
  /\ (fst (PasswordVault.GetEntries 1 long_text 0 10 other_addresses_db) = Return []
      /\ occurs_literally long_text long_text = true).
Proof. repeat split; vm_compute; reflexivity. Qed.

(** C8 (amended) — on a store that answers its calls, for a filter that
    holds no [%], no [_] and no NUL byte and is at most 49998 bytes long, and
    a page index and size in range: every entry [GetEntries] returns is an
    entry of the codebook whose address contains the filter as a substring,
    both read as sequences of UTF-8 characters the way LIKE reads them and
    the letters of ASCII compared regardless of case; and on a first page
    large enough for the whole table, every such entry is returned. *)
Theorem GetEntries_filter_substring :
  forall (db : sqlite3) (id : Z) (f : string) (page page_size : Z),
    healthy db ->
    plain_filter f = true ->
    within_like_limit f ->
    0 <= page -> 0 <= page_size -> page * page_size <= INT_MAX ->
    exists listing,
      fst (PasswordVault.GetEntries id f page page_size db)
      = Return (map PasswordVault.read_entry listing)
      /\ (forall r, In r listing ->
            In r (PasswordEntry (db_rows db))
            /\ PasswordEntryT.codebook_id r = id
            /\ occurs_in f (PasswordEntryT.address r))
      /\ (page = 0 ->
          Z.of_nat (length (PasswordEntry (db_rows db))) <= page_size ->
          forall r, In r (PasswordEntry (db_rows db)) ->
                    PasswordEntryT.codebook_id r = id ->
                    occurs_in f (PasswordEntryT.address r) ->
                    In r listing).
Proof.
  intros db id f page page_size H PF WL P S B.
  destruct (GetEntries_healthy db id f page page_size H) as [E _].
  rewrite select_entries_page in E by assumption.
  set (pattern := c_str ("%" ++ f ++ "%")) in *.
  set (sorted := order_by_desc PasswordEntryT.created_time
                   (filter (entry_matches id pattern) (PasswordEntry (db_rows db)))) in *.
  assert (M : forall r, In r sorted <->
                        In r (PasswordEntry (db_rows db))
                        /\ PasswordEntryT.codebook_id r = id
                        /\ occurs_in f (PasswordEntryT.address r)).
  { intros r. unfold sorted. split.
    - intros I. apply (Permutation_in _ (order_by_desc_perm _ _)) in I.
      apply filter_In in I as [I X]. unfold entry_matches in X.
      apply andb_true_iff in X as [X1 X2]. apply Z.eqb_eq in X1.
      apply (like_filter_pattern f _ PF WL) in X2. auto.
    - intros [I [X1 X2]].
      apply (Permutation_in _ (Permutation_sym (order_by_desc_perm _ _))).
      apply filter_In. split; [exact I|]. unfold entry_matches.
      apply andb_true_iff. split; [apply Z.eqb_eq; exact X1|].
      apply (like_filter_pattern f _ PF WL). exact X2. }
  exists (firstn (Z.to_nat page_size) (skipn (Z.to_nat (page * page_size)) sorted)).
  split; [exact E|]. split.
  - intros r I. apply M.
    eapply in_skipn, in_firstn. exact I.
  - intros P0 L r I X1 X2. subst page. simpl.
    rewrite firstn_all2.
    + apply M. auto.
    + assert (length sorted <= length (PasswordEntry (db_rows db)))%nat.
      { unfold sorted. rewrite (Permutation_length (order_by_desc_perm _ _)).
        apply filter_length_le. }
      lia.
Qed.

Lemma GetEntries_filter_substring_witness :
  exists listing,
    fst (PasswordVault.GetEntries 1 "example.com" 0 10 five_entries_db)
    = Return (map PasswordVault.read_entry listing)
    /\ (forall r, In r listing ->
          In r (PasswordEntry (db_rows five_entries_db))
          /\ PasswordEntryT.codebook_id r = 1
          /\ occurs_in "example.com" (PasswordEntryT.address r))
    /\ (0 = 0 ->
        Z.of_nat (length (PasswordEntry (db_rows five_entries_db))) <= 10 ->
        forall r, In r (PasswordEntry (db_rows five_entries_db)) ->
                  PasswordEntryT.codebook_id r = 1 ->
                  occurs_in "example.com" (PasswordEntryT.address r) ->
                  In r listing).
Proof.
  apply (GetEntries_filter_substring five_entries_db 1 "example.com" 0 10).
  - reflexivity.
  - reflexivity.
  - unfold within_like_limit, LIKE_PATTERN_LENGTH. simpl. lia.
  - lia.
  - lia.
  - unfold INT_MAX. lia.
Defined.

(** ** DeleteCodebook *)

(** The tables without the codebook and without its entries. *)
Definition delete_codebook_rows (id : Z) (t : tables) : tables :=
  mk_tables
    (filter (fun r => negb (CodebookT.codebook_id r =? id)) (Codebook t))
    (filter (fun r => negb (PasswordEntryT.codebook_id r =? id)) (PasswordEntry t)).

(** Whether a fault is scripted for one of the [n] calls from the [lo]-th on. *)
Definition any_fault_between (lo n : nat) (db : sqlite3) : bool :=
  existsb (fun k => negb (no_fault (fault_at k db))) (seq lo n).

Lemma skipn_length_app {A : Type} (l evs : list A) :
  skipn (length l) (l ++ evs)%list = evs.
Proof. induction l; simpl; auto. Qed.

(** *** Running a method body against a fault script *)

(** The body held in [R] is evaluated as far as the script allows: what is
    left is a decision tree over the coming slots of the script. *)
Ltac eval_body R :=
  cbv beta iota delta
    [bind ret throw try_catch sqlite3_prepare_v2 sqlite3_step sqlite3_exec
     sqlite3_finalize sqlite3_errmsg sqlite3_changes PasswordVault.prepare_failed
     PasswordVault.BeginTransaction PasswordVault.CommitTransaction
     PasswordVault.RollbackTransaction next_fault api_exit set_rows set_journal
     set_changes db_rows db_journal db_changes db_errmsg db_now db_faults db_trace
     tl negb rc_eqb run_write fst snd] in R.

(** One case per way the script can go. *)
Ltac split_script R :=
  repeat match type of R with
         | context [match ?l with [] => _ | _ :: _ => _ end] =>
             is_var l;
             match type of l with list (option string) => idtac end;
             destruct l as [|[?|] ?]; cbv beta iota in R
         end.

(** The outcome and the final state are known: the calls made are the ones
    appended to the trace. *)
Ltac run_done R :=
  rewrite R; simpl;
  rewrite <- ?app_assoc; simpl; rewrite ?skipn_length_app; simpl.

Ltac close_case :=
  repeat match goal with
         | |- _ /\ _ => split
         | |- _ -> _ => intro
         | H : _ \/ _ |- _ => destruct H
         | H : False |- _ => destruct H
         end;
  try reflexivity; try discriminate; try congruence; try tauto.

(** A vault with one codebook and two entries, on which BEGIN will fail. *)
Definition begin_fails_db : sqlite3 :=
  mk_sqlite3
    (mk_tables
       [CodebookT.mk 1 "user" "mail" "2024-01-01 00:00:00"]
       [PasswordEntryT.mk 1 1 "a.example.com" "pk" "s1" "" "2024-01-02 00:00:01";
        PasswordEntryT.mk 2 1 "b.example.com" "pk" "s2" "" "2024-01-02 00:00:02"])
    None 0 not_an_error "2024-01-03 00:00:00"
    [None; None; Some "database is locked"] [].

(** C1, as stated, fails at its first step: when the transaction cannot be
    begun, [DeleteCodebook] throws at once, from outside its [try] block, and
    no ROLLBACK is issued. *)
Lemma DeleteCodebook_begin_failure_counterexample :
  fst (PasswordVault.DeleteCodebook 1 begin_fails_db)
  = Throw (runtime_error "Failed to start transaction")
  /\ calls_since begin_fails_db (snd (PasswordVault.DeleteCodebook 1 begin_fails_db))
     = [ev_prepare true; ev_step true; ev_exec BEGIN_TRANSACTION false]
  /\ existsb is_rollback
       (calls_since begin_fails_db (snd (PasswordVault.DeleteCodebook 1 begin_fails_db)))
     = false.
Proof. repeat split. Qed.

(** C1 (amended) — [DeleteCodebook] on a codebook that exists, called outside
    a transaction, the existence check having run.  If none of the six steps
    (BEGIN, preparing and executing the delete of the entries, preparing and
    executing the delete of the codebook, COMMIT) fails, it returns true and
    the codebook row and all its entries are gone, the transaction closed.
    If one of them fails, a [runtime_error] is thrown and the committed rows
    are the ones the call started with.  When the failing step is BEGIN, no
    rollback is issued and nothing was touched; when it is a later step, a
    ROLLBACK is issued, and once a ROLLBACK succeeds the connection shows the
    codebook row and all its entries as they were, no transaction open. *)
Theorem DeleteCodebook_atomic :
  forall (db : sqlite3) (id : Z),
    db_journal db = None ->
    codebook_exists id (db_rows db) = true ->
    fault_at 0 db = None -> fault_at 1 db = None ->
    let run := PasswordVault.DeleteCodebook id db in
    let calls := calls_since db (snd run) in
    (any_fault_between 2 6 db = false ->
       fst run = Return true
       /\ db_rows (snd run) = delete_codebook_rows id (db_rows db)
       /\ db_journal (snd run) = None)
    /\ (any_fault_between 2 6 db = true ->
        is_runtime_error (fst run) = true
        /\ durable (snd run) = db_rows db
        /\ (fault_at 2 db <> None ->
            existsb is_rollback calls = false
            /\ db_rows (snd run) = db_rows db
            /\ db_journal (snd run) = None)
        /\ (fault_at 2 db = None ->
            existsb is_rollback calls = true
            /\ (In (ev_exec ROLLBACK true) calls ->
                db_rows (snd run) = db_rows db /\ db_journal (snd run) = None))).
Proof.
  intros db id J X F0 F1 run calls. unfold calls.
  remember run as result eqn:R. unfold run in R. clear run calls.
  unfold PasswordVault.DeleteCodebook in R. unfold bind at 1 in R.
  rewrite CheckCodebookExists_unfold, F0, F1, X in R. clear F0 F1.
  destruct db as [t j c e now fs tr]. simpl in J. subst j.
  unfold any_fault_between, fault_at, calls_since, durable, delete_codebook_rows.
  destruct fs as [|f0 [|f1 fs]]; eval_body R; split_script R;
    run_done R; close_case.
Qed.

(** A vault with one codebook and two entries, on which the delete of the
    entries will fail and the rollback succeed. *)
Definition delete_fails_db : sqlite3 :=
  with_faults [None; None; None; None; Some "disk I/O error"] begin_fails_db.

Lemma DeleteCodebook_atomic_witness :
  is_runtime_error (fst (PasswordVault.DeleteCodebook 1 delete_fails_db)) = true
  /\ db_rows (snd (PasswordVault.DeleteCodebook 1 delete_fails_db))
     = db_rows delete_fails_db
  /\ db_journal (snd (PasswordVault.DeleteCodebook 1 delete_fails_db)) = None.
Proof.
  destruct (DeleteCodebook_atomic delete_fails_db 1 eq_refl eq_refl eq_refl eq_refl)
    as [_ F].
  destruct (F eq_refl) as [E [_ [_ R]]].
  split; [exact E|].
  apply (R eq_refl). simpl. tauto.
Defined.

(** ** Storage failures *)





Lemma prepare_failure_surfaces db msg :
  fault_at 0 db = Some msg ->
  let e := runtime_error ("Prepare failed: " ++ msg) in
  (forall u n, PasswordVault.ValidateCodebookName n = true ->
               fst (PasswordVault.CreateCodebook u n db) = Throw e)
  /\ (forall id, fst (PasswordVault.DeleteCodebook id db) = Throw e)
  /\ (forall u, fst (PasswordVault.GetUserCodebooks u db) = Throw e)
  /\ (forall id a k p n, fst (PasswordVault.AddEntry id a k p n db) = Throw e)
  /\ (forall id f page page_size,
         fst (PasswordVault.GetEntries id f page page_size db) = Throw e)
  /\ (forall id a k p n, entry_fields_valid a k p = true ->
                         fst (PasswordVault.UpdateEntry id a k p n db) = Throw e).
Proof.
  intros F e. unfold e. repeat split; intros.
  - rewrite CreateCodebook_unfold by assumption. rewrite F. reflexivity.
  - unfold PasswordVault.DeleteCodebook. unfold bind at 1.
    rewrite CheckCodebookExists_unfold, F. reflexivity.
  - unfold PasswordVault.GetUserCodebooks. unfold bind at 1.
    unfold sqlite3_prepare_v2. rewrite next_fault_fault_at, F. reflexivity.
  - rewrite AddEntry_unfold, CheckCodebookExists_unfold, F. reflexivity.
  - unfold PasswordVault.GetEntries. unfold bind at 1.
    unfold sqlite3_prepare_v2. rewrite next_fault_fault_at, F. reflexivity.
  - rewrite UpdateEntry_valid_unfold by assumption. rewrite F. reflexivity.
Qed.

Lemma insert_codebook_present u n now t :
  existsb (same_codebook_key u n)
          (Codebook (fst (run_write (InsertCodebook u n) now t))) = true.
Proof.
  simpl. destruct (existsb (same_codebook_key u n) (Codebook t)) eqn:X; simpl.
  - exact X.
  - rewrite existsb_app. simpl.
    assert (K : same_codebook_key u n
                  (CodebookT.mk (next_rowid (map CodebookT.codebook_id (Codebook t)))
                                u n now) = true)
      by (apply same_codebook_key_true; reflexivity).
    rewrite K. apply orb_true_iff. right. reflexivity.
Qed.



Lemma UpdateEntry_true db id a k p n :
  fst (PasswordVault.UpdateEntry id a k p n db) = Return true ->
  entry_exists id (db_rows db) = true
  /\ db_rows (snd (PasswordVault.UpdateEntry id a k p n db))
     = mk_tables (Codebook (db_rows db))
         (map (update_row (c_str a) (c_str k) (c_str p) (c_str n) id)
              (PasswordEntry (db_rows db))).
Proof.
  destruct (entry_fields_valid a k p) eqn:V.
  - rewrite (UpdateEntry_valid_unfold db id a k p n V).
    destruct (fault_at 0 db); [discriminate|].
    destruct (fault_at 1 db); [discriminate|].
    simpl. intros E. inversion E as [E']. rewrite E'. split; reflexivity.
  - destruct (UpdateEntry_invalid db id a k p n V) as [what E]. rewrite E.
    discriminate.
Qed.

Lemma GetEntries_prefix db id f page page_size :
  fault_at 0 db = None ->
  exists n,
    fst (PasswordVault.GetEntries id f page page_size db)
    = Return (map PasswordVault.read_entry
                  (firstn n (select_entries id (c_str ("%" ++ f ++ "%")) page_size
                                            (int_wrap (page * page_size)) (db_rows db))))
    /\ db_rows (snd (PasswordVault.GetEntries id f page page_size db)) = db_rows db.
Proof.
  intros F. remember (PasswordVault.GetEntries id f page page_size db) as run eqn:R0.
  unfold PasswordVault.GetEntries in R0.
  unfold bind at 1 in R0. unfold sqlite3_prepare_v2 in R0.
  rewrite next_fault_fault_at, F in R0.
  simpl in R0. unfold bind at 1 in R0. unfold result_set in R0. simpl in R0.
  destruct (while_step_row_prefix PasswordVault.read_entry
              (select_entries id (c_str (String "%" (f ++ "%"))) page_size
                 (int_wrap (page * page_size)) (db_rows db))
              (api_exit (ev_prepare true) not_an_error db))
    as [n [db' [E [R _]]]].
  unfold bind at 1 in R0. simpl in E. rewrite E in R0. simpl in R0.
  exists n. rewrite R0. split; [reflexivity | exact R].
Qed.







(** * Further properties of the class *)

(** ** DeleteCodebook: the paths around the transaction *)




(** X2 — [DeleteCodebook] called while a transaction is already open on the
    connection, for a codebook that exists: BEGIN is refused, the method
    throws ["Failed to start transaction"], issues no ROLLBACK, and leaves
    the rows and the caller's open transaction exactly as they were. *)
Theorem DeleteCodebook_in_open_transaction :
  forall (db : sqlite3) (id : Z) (snapshot : tables),
    db_journal db = Some snapshot ->
    codebook_exists id (db_rows db) = true ->
    fault_at 0 db = None -> fault_at 1 db = None ->
    let run := PasswordVault.DeleteCodebook id db in
    fst run = Throw (runtime_error "Failed to start transaction")
    /\ db_rows (snd run) = db_rows db
    /\ db_journal (snd run) = Some snapshot
    /\ existsb is_rollback (calls_since db (snd run)) = false.
Proof.
  intros db id snapshot J X F0 F1 run.
  remember run as result eqn:R. unfold run in R. clear run.
  unfold PasswordVault.DeleteCodebook in R. unfold bind at 1 in R.
  rewrite CheckCodebookExists_unfold, F0, F1, X in R. clear F0 F1.
  destruct db as [t j c e now fs tr]. simpl in J. subst j.
  unfold calls_since.
  destruct fs as [|f0 [|f1 fs]]; eval_body R; split_script R;
    run_done R; close_case.
Qed.

Definition open_transaction_db : sqlite3 :=
  mk_sqlite3 (db_rows one_entry_db) (Some (db_rows one_entry_db)) 0 not_an_error
             "2024-01-03 00:00:00" [] [].

Lemma DeleteCodebook_in_open_transaction_witness :
  fst (PasswordVault.DeleteCodebook 1 open_transaction_db)
  = Throw (runtime_error "Failed to start transaction")
  /\ db_rows (snd (PasswordVault.DeleteCodebook 1 open_transaction_db))
     = db_rows open_transaction_db.
Proof.
  destruct (DeleteCodebook_in_open_transaction open_transaction_db 1
              (db_rows one_entry_db) eq_refl eq_refl eq_refl eq_refl)
    as [E [R _]].
  split; assumption.
Defined.

(** ** A store that answers its calls stays one *)

Lemma healthy_set_rows t db : healthy (set_rows t db) <-> healthy db.
Proof. reflexivity. Qed.

Lemma healthy_set_changes n db : healthy (set_changes n db) <-> healthy db.
Proof. reflexivity. Qed.

Lemma healthy_set_journal j db : healthy (set_journal j db) <-> healthy db.
Proof. reflexivity. Qed.

Lemma healthy_CreateCodebook db u n :
  healthy db -> healthy (snd (PasswordVault.CreateCodebook u n db)).
Proof.
  intros H. destruct (PasswordVault.ValidateCodebookName n) eqn:V.
  - rewrite (CreateCodebook_unfold db u n V), !healthy_fault_at by exact H.
    simpl. repeat apply healthy_api_exit. exact H.
  - rewrite (CreateCodebook_invalid db u n V). exact H.
Qed.

Lemma healthy_AddEntry db id a k p n :
  healthy db -> healthy (snd (PasswordVault.AddEntry id a k p n db)).
Proof.
  intros H. rewrite AddEntry_unfold, CheckCodebookExists_unfold.
  rewrite !healthy_fault_at by exact H.
  destruct (codebook_exists id (db_rows db)).
  - rewrite !fault_at_api_exit, !healthy_fault_at by exact H.
    simpl. repeat apply healthy_api_exit. exact H.
  - simpl. repeat apply healthy_api_exit. exact H.
Qed.

Lemma healthy_UpdateEntry db id a k p n :
  healthy db -> healthy (snd (PasswordVault.UpdateEntry id a k p n db)).
Proof.
  intros H. destruct (entry_fields_valid a k p) eqn:V.
  - rewrite (UpdateEntry_valid_unfold db id a k p n V), !healthy_fault_at by exact H.
    simpl. repeat apply healthy_api_exit. exact H.
  - destruct (UpdateEntry_invalid db id a k p n V) as [what E]. rewrite E. exact H.
Qed.

(** [DeleteCodebook] when nothing fails. *)
Lemma DeleteCodebook_healthy db id :
  healthy db ->
  db_journal db = None ->
  codebook_exists id (db_rows db) = true ->
  fst (PasswordVault.DeleteCodebook id db) = Return true
  /\ db_rows (snd (PasswordVault.DeleteCodebook id db))
     = delete_codebook_rows id (db_rows db)
  /\ db_journal (snd (PasswordVault.DeleteCodebook id db)) = None
  /\ healthy (snd (PasswordVault.DeleteCodebook id db)).
Proof.
  intros H J X.
  remember (PasswordVault.DeleteCodebook id db) as result eqn:R.
  unfold PasswordVault.DeleteCodebook in R. unfold bind at 1 in R.
  rewrite CheckCodebookExists_unfold, !healthy_fault_at, X in R by exact H.
  destruct db as [t j c e now fs tr]. simpl in J. subst j.
  unfold healthy, delete_codebook_rows in *. simpl in H.
  destruct fs as [|[m0|] [|[m1|] fs]]; simpl in H; try discriminate H;
    eval_body R; split_script R;
    simpl in H; try discriminate H; rewrite R; simpl; auto.
Qed.

(** The three shapes the visible rows can have after [DeleteCodebook],
    whatever fails. *)
Definition delete_entries_rows (id : Z) (t : tables) : tables :=
  mk_tables (Codebook t)
    (filter (fun r => negb (PasswordEntryT.codebook_id r =? id)) (PasswordEntry t)).

Lemma DeleteCodebook_rows_cases db id :
  db_rows (snd (PasswordVault.DeleteCodebook id db)) = db_rows db
  \/ db_rows (snd (PasswordVault.DeleteCodebook id db))
     = delete_entries_rows id (db_rows db)
  \/ db_rows (snd (PasswordVault.DeleteCodebook id db))
     = delete_codebook_rows id (db_rows db).
Proof.
  remember (PasswordVault.DeleteCodebook id db) as result eqn:R.
  unfold PasswordVault.DeleteCodebook in R. unfold bind at 1 in R.
  rewrite CheckCodebookExists_unfold in R.
  destruct (fault_at 0 db) eqn:F0; [rewrite R; left; reflexivity|].
  destruct (fault_at 1 db) eqn:F1; [rewrite R; left; reflexivity|].
  destruct (codebook_exists id (db_rows db)) eqn:X; [|rewrite R; left; reflexivity].
  clear F0 F1 X. unfold delete_codebook_rows, delete_entries_rows.
  destruct db as [t j c e now fs tr].
  destruct j as [tj|];
    (destruct fs as [|f0 [|f1 fs]]; eval_body R; split_script R;
     rewrite R; simpl; auto).
Qed.

(** ** DeleteCodebook and the listings *)

Lemma codebook_exists_deleted id t :
  codebook_exists id (delete_codebook_rows id t) = false.
Proof.
  unfold codebook_exists, delete_codebook_rows. simpl.
  induction (Codebook t) as [|r l IH]; simpl; [reflexivity|].
  destruct (CodebookT.codebook_id r =? id) eqn:E; simpl; [exact IH|].
  rewrite E. exact IH.
Qed.

Lemma codebook_exists_other id id2 t :
  id2 <> id ->
  codebook_exists id2 (delete_codebook_rows id t) = codebook_exists id2 t.
Proof.
  intros NE. unfold codebook_exists, delete_codebook_rows. simpl.
  induction (Codebook t) as [|r l IH]; simpl; [reflexivity|].
  destruct (CodebookT.codebook_id r =? id) eqn:E; simpl.
  - apply Z.eqb_eq in E.
    assert (N : (CodebookT.codebook_id r =? id2) = false)
      by (apply Z.eqb_neq; congruence).
    rewrite N. exact IH.
  - rewrite IH. reflexivity.
Qed.

Lemma entries_of_deleted id pattern (l : list PasswordEntryT.row) :
  filter (entry_matches id pattern)
         (filter (fun r => negb (PasswordEntryT.codebook_id r =? id)) l) = [].
Proof.
  induction l as [|r l IH]; simpl; [reflexivity|].
  destruct (PasswordEntryT.codebook_id r =? id) eqn:E; simpl; [exact IH|].
  unfold entry_matches at 1. rewrite E. simpl. exact IH.
Qed.

Lemma entries_of_other id id2 pattern (l : list PasswordEntryT.row) :
  id2 <> id ->
  filter (entry_matches id2 pattern)
         (filter (fun r => negb (PasswordEntryT.codebook_id r =? id)) l)
  = filter (entry_matches id2 pattern) l.
Proof.
  intros NE. induction l as [|r l IH]; simpl; [reflexivity|].
  destruct (PasswordEntryT.codebook_id r =? id) eqn:E; simpl.
  - apply Z.eqb_eq in E. unfold entry_matches at 2.
    assert (N : (PasswordEntryT.codebook_id r =? id2) = false)
      by (apply Z.eqb_neq; congruence).
    rewrite N. simpl. exact IH.
  - rewrite IH. reflexivity.
Qed.

Lemma limit_offset_nil {A : Type} (limit offset : Z) :
  limit_offset limit offset (@nil A) = [].
Proof.
  unfold limit_offset. rewrite skipn_nil.
  destruct (limit <? 0); [reflexivity | apply firstn_nil].
Qed.

(** Sorting by descending key and filtering commute: the sort is stable. *)
Lemma filter_insert_desc {A : Type} (key : A -> string) (p : A -> bool) x l :
  StronglySorted (newest_first key) l ->
  filter p (insert_desc key x l)
  = if p x then insert_desc key x (filter p l) else filter p l.
Proof.
  induction l as [|y l IH]; intros S; simpl.
  - destruct (p x); reflexivity.
  - inversion S as [|y' l' S' F]; subst.
    destruct (String.leb (key y) (key x)) eqn:E; simpl.
    + destruct (p x) eqn:Px; [|reflexivity].
      destruct (p y) eqn:Py; simpl.
      * rewrite E. reflexivity.
      * (* every later row is no newer than [y], hence than [x] *)
        clear IH S S'. induction l as [|z l IHl]; simpl; [reflexivity|].
        inversion F as [|z' l' Hz F']; subst.
        destruct (p z) eqn:Pz; simpl.
        -- assert (Z1 : String.leb (key z) (key x) = true)
             by (eapply string_leb_trans; [exact Hz | exact E]).
           rewrite Z1. reflexivity.
        -- apply IHl. exact F'.
    + rewrite (IH S'). destruct (p y) eqn:Py; destruct (p x) eqn:Px; simpl;
        rewrite ?E; reflexivity.
Qed.

Lemma filter_order_by_desc {A : Type} (key : A -> string) (p : A -> bool) l :
  order_by_desc key (filter p l) = filter p (order_by_desc key l).
Proof.
  induction l as [|x l IH]; simpl; [reflexivity|].
  rewrite filter_insert_desc by apply order_by_desc_sorted.
  destruct (p x); simpl; rewrite IH; reflexivity.
Qed.

Lemma filter_comm {A : Type} (p q : A -> bool) (l : list A) :
  filter p (filter q l) = filter q (filter p l).
Proof.
  induction l as [|x l IH]; simpl; [reflexivity|].
  destruct (q x) eqn:Q; destruct (p x) eqn:P; simpl; rewrite ?Q, ?P, IH; reflexivity.
Qed.

Lemma DeleteCodebook_absent_healthy db id :
  healthy db ->
  codebook_exists id (db_rows db) = false ->
  fst (PasswordVault.DeleteCodebook id db) = Return false.
Proof.
  intros H X. unfold PasswordVault.DeleteCodebook. unfold bind at 1.
  rewrite CheckCodebookExists_unfold, !healthy_fault_at, X by exact H.
  reflexivity.
Qed.

(** X3 — after a [DeleteCodebook] that went through (the codebook exists, no
    transaction is open, the store answers its calls) the codebook is gone
    for every other operation: [GetEntries] for it returns the empty sequence
    for every filter and page, [AddEntry] to it returns false, deleting it
    again returns false, and every listing of [GetUserCodebooks] is the
    listing of before without the rows of that id; when the ids of the table
    and the id deleted are [int]s, no codebook of a listing carries that
    id. *)
Theorem DeleteCodebook_then_gone :
  forall (db : sqlite3) (id : Z),
    healthy db ->
    db_journal db = None ->
    codebook_exists id (db_rows db) = true ->
    let db' := snd (PasswordVault.DeleteCodebook id db) in
    fst (PasswordVault.DeleteCodebook id db) = Return true
    /\ (forall f page page_size,
           fst (PasswordVault.GetEntries id f page page_size db') = Return [])
    /\ (forall a k p n, fst (PasswordVault.AddEntry id a k p n db') = Return false)
    /\ fst (PasswordVault.DeleteCodebook id db') = Return false
    /\ (forall u,
           fst (PasswordVault.GetUserCodebooks u db')
           = Return (map PasswordVault.read_codebook
                         (filter (fun r => negb (CodebookT.codebook_id r =? id))
                                 (select_user_codebooks (c_str u) (db_rows db))))
           /\ (INT_MIN <= id <= INT_MAX ->
               (forall r, In r (Codebook (db_rows db)) ->
                          INT_MIN <= CodebookT.codebook_id r <= INT_MAX) ->
               forall l cb,
                 fst (PasswordVault.GetUserCodebooks u db') = Return l ->
                 In cb l -> PasswordVault.Codebook.id cb <> id)).
Proof.
  intros db id H J X db'.
  destruct (DeleteCodebook_healthy db id H J X) as [E [R [_ H']]].
  fold db' in R, H'.
  assert (X' : codebook_exists id (db_rows db') = false)
    by (rewrite R; apply codebook_exists_deleted).
  split; [exact E|].
  split.
  { intros f page page_size.
    destruct (GetEntries_healthy db' id f page page_size H') as [G _].
    rewrite G, R. unfold select_entries, delete_codebook_rows. simpl.
    rewrite entries_of_deleted. simpl. rewrite limit_offset_nil. reflexivity. }
  split.
  { intros a k p n. rewrite AddEntry_unfold, CheckCodebookExists_unfold.
    rewrite !healthy_fault_at, X' by exact H'. reflexivity. }
  split; [apply DeleteCodebook_absent_healthy; assumption|].
  intros u. destruct (GetUserCodebooks_healthy db' u H') as [G _].
  assert (G' : fst (PasswordVault.GetUserCodebooks u db')
               = Return (map PasswordVault.read_codebook
                           (filter (fun r => negb (CodebookT.codebook_id r =? id))
                                   (select_user_codebooks (c_str u) (db_rows db))))).
  { rewrite G, R. unfold select_user_codebooks, delete_codebook_rows. simpl.
    rewrite <- filter_order_by_desc.
    rewrite (filter_comm _ (fun r => negb (CodebookT.codebook_id r =? id))).
    reflexivity. }
  split; [exact G'|].
  intros B BT l cb L I. rewrite G' in L. inversion L; subst l. clear L.
  apply in_map_iff in I as [r [<- I]].
  apply filter_In in I as [I NE]. apply negb_true_iff, Z.eqb_neq in NE.
  unfold select_user_codebooks in I.
  apply (Permutation_in _ (order_by_desc_perm _ _)) in I.
  apply filter_In in I as [I _].
  simpl. unfold sqlite3_column_int. rewrite int_wrap_small by (apply BT; exact I).
  exact NE.
Qed.

Lemma DeleteCodebook_then_gone_witness :
  fst (PasswordVault.DeleteCodebook 1 five_entries_db) = Return true
  /\ fst (PasswordVault.DeleteCodebook 1
            (snd (PasswordVault.DeleteCodebook 1 five_entries_db))) = Return false.
Proof.
  destruct (DeleteCodebook_then_gone five_entries_db 1 eq_refl eq_refl eq_refl)
    as [E [_ [_ [D _]]]].
  split; assumption.
Defined.

(** X4 — a [DeleteCodebook] that went through leaves every other codebook as
    it was: the codebook still exists, [GetEntries] for it returns what it
    returned before, for every filter and page, and every listing of
    [GetUserCodebooks] is the earlier listing, in the same order, without
    the row of the deleted codebook. *)
Theorem DeleteCodebook_keeps_others :
  forall (db : sqlite3) (id other : Z),
    healthy db ->
    db_journal db = None ->
    codebook_exists id (db_rows db) = true ->
    other <> id ->
    let db' := snd (PasswordVault.DeleteCodebook id db) in
    codebook_exists other (db_rows db') = codebook_exists other (db_rows db)
    /\ (forall f page page_size,
           fst (PasswordVault.GetEntries other f page page_size db')
           = fst (PasswordVault.GetEntries other f page page_size db))
    /\ (forall u,
           fst (PasswordVault.GetUserCodebooks u db')
           = Return (map PasswordVault.read_codebook
                         (filter (fun r => negb (CodebookT.codebook_id r =? id))
                                 (select_user_codebooks (c_str u) (db_rows db))))
           /\ fst (PasswordVault.GetUserCodebooks u db)
              = Return (map PasswordVault.read_codebook
                            (select_user_codebooks (c_str u) (db_rows db)))).
Proof.
  intros db id other H J X NE db'.
  destruct (DeleteCodebook_healthy db id H J X) as [_ [R [_ H']]].
  fold db' in R, H'.
  split; [rewrite R; apply codebook_exists_other; exact NE|].
  split.
  { intros f page page_size.
    destruct (GetEntries_healthy db' other f page page_size H') as [G' _].
    destruct (GetEntries_healthy db other f page page_size H) as [G _].
    rewrite G', G, R. unfold select_entries, delete_codebook_rows. simpl.
    rewrite (entries_of_other id other _ _ NE). reflexivity. }
  intros u.
  destruct (GetUserCodebooks_healthy db' u H') as [G' _].
  destruct (GetUserCodebooks_healthy db u H) as [G _].
  split; [|exact G].
  rewrite G', R. unfold select_user_codebooks, delete_codebook_rows. simpl.
  rewrite <- filter_order_by_desc.
  rewrite (filter_comm _ (fun r => negb (CodebookT.codebook_id r =? id))).
  reflexivity.
Qed.

Lemma DeleteCodebook_keeps_others_witness :
  fst (PasswordVault.GetEntries 2 "" 0 10
         (snd (PasswordVault.DeleteCodebook 1 five_entries_db)))
  = fst (PasswordVault.GetEntries 2 "" 0 10 five_entries_db).
Proof.
  apply (DeleteCodebook_keeps_others five_entries_db 1 2);
    [reflexivity | reflexivity | reflexivity | discriminate].
Defined.

(** ** Writing, then reading back *)

Lemma occurs_in_empty a : occurs_in "" a.
Proof.
  exists [], [], (utf8_chars None (c_str a)). split; [reflexivity | constructor].
Qed.

Lemma empty_within_like_limit : within_like_limit "".
Proof. unfold within_like_limit, LIKE_PATTERN_LENGTH. simpl. lia. Qed.

(** The first page, when it is large enough for the whole table, is the whole
    listing. *)
Lemma GetEntries_first_page db id f page_size :
  healthy db ->
  Z.of_nat (length (PasswordEntry (db_rows db))) <= page_size ->
  fst (PasswordVault.GetEntries id f 0 page_size db)
  = Return (map PasswordVault.read_entry
             (order_by_desc PasswordEntryT.created_time
                (filter (entry_matches id (c_str ("%" ++ f ++ "%")))
                        (PasswordEntry (db_rows db))))).
Proof.
  intros H L. destruct (GetEntries_healthy db id f 0 page_size H) as [E _].
  rewrite E, select_entries_page by (unfold INT_MAX; lia).
  simpl Z.mul. simpl Z.to_nat at 2. rewrite skipn_O, firstn_all2; [reflexivity|].
  rewrite (Permutation_length (order_by_desc_perm _ _)).
  pose proof (filter_length_le (entry_matches id (c_str ("%" ++ f ++ "%")))
                               (PasswordEntry (db_rows db))).
  lia.
Qed.

Lemma in_first_page db id f page_size r :
  healthy db ->
  plain_filter f = true ->
  within_like_limit f ->
  Z.of_nat (length (PasswordEntry (db_rows db))) <= page_size ->
  In r (PasswordEntry (db_rows db)) ->
  PasswordEntryT.codebook_id r = id ->
  occurs_in f (PasswordEntryT.address r) ->
  exists l,
    fst (PasswordVault.GetEntries id f 0 page_size db) = Return l
    /\ In (PasswordVault.read_entry r) l.
Proof.
  intros H PF WL L I C O. eexists. split; [apply GetEntries_first_page; assumption|].
  apply in_map.
  apply (Permutation_in _ (Permutation_sym (order_by_desc_perm _ _))).
  apply filter_In. split; [exact I|].
  unfold entry_matches. apply andb_true_iff. split; [apply Z.eqb_eq; exact C|].
  apply (like_filter_pattern f _ PF WL). exact O.
Qed.

Lemma AddEntry_healthy db id a k p n :
  healthy db ->
  codebook_exists id (db_rows db) = true ->
  fst (PasswordVault.AddEntry id a k p n db) = Return true
  /\ db_rows (snd (PasswordVault.AddEntry id a k p n db))
     = mk_tables (Codebook (db_rows db))
         (PasswordEntry (db_rows db) ++ [new_entry id a k p n db]).
Proof.
  intros H X. rewrite AddEntry_unfold, CheckCodebookExists_unfold.
  rewrite !healthy_fault_at, X by exact H.
  rewrite !fault_at_api_exit, !healthy_fault_at by exact H.
  split; reflexivity.
Qed.

Lemma UpdateEntry_healthy db id a k p n :
  healthy db ->
  entry_fields_valid a k p = true ->
  fst (PasswordVault.UpdateEntry id a k p n db)
  = Return (entry_exists id (db_rows db))
  /\ db_rows (snd (PasswordVault.UpdateEntry id a k p n db))
     = mk_tables (Codebook (db_rows db))
         (map (update_row (c_str a) (c_str k) (c_str p) (c_str n) id)
              (PasswordEntry (db_rows db))).
Proof.
  intros H V. rewrite (UpdateEntry_valid_unfold db id a k p n V).
  rewrite !healthy_fault_at by exact H. split; reflexivity.
Qed.

(** X5 — insert, then look up.  On a store that answers its calls, an
    [AddEntry] to an existing codebook returns true, and a following
    [GetEntries] for that codebook, first page, large enough for the table,
    lists the new entry with the field values as they were bound, under
    every filter without [%], [_] and NUL, of at most 49998 bytes, that
    occurs in its address as LIKE reads the two (as UTF-8 characters, ASCII
    letters regardless of case; the empty filter among them); the entry's
    creation time is the store's current time. *)
Theorem AddEntry_then_GetEntries :
  forall (db : sqlite3) (id : Z) (a k p n f : string) (page_size : Z),
    healthy db ->
    codebook_exists id (db_rows db) = true ->
    plain_filter f = true ->
    within_like_limit f ->
    occurs_in f (c_str a) ->
    Z.of_nat (length (PasswordEntry (db_rows db))) < page_size ->
    let db' := snd (PasswordVault.AddEntry id a k p n db) in
    fst (PasswordVault.AddEntry id a k p n db) = Return true
    /\ exists l,
         fst (PasswordVault.GetEntries id f 0 page_size db') = Return l
         /\ In (PasswordVault.PasswordEntry.mk
                  (sqlite3_column_int
                     (next_rowid (map PasswordEntryT.entry_id
                                      (PasswordEntry (db_rows db)))))
                  (c_str a) (c_str k) (c_str p) (c_str n) (db_now db)) l.
Proof.
  intros db id a k p n f page_size H X PF WL O L db'.
  destruct (AddEntry_healthy db id a k p n H X) as [E R]. fold db' in R.
  split; [exact E|].
  apply (in_first_page db' id f page_size (new_entry id a k p n db)).
  - apply healthy_AddEntry. exact H.
  - exact PF.
  - exact WL.
  - rewrite R. simpl. rewrite length_app. simpl. lia.
  - rewrite R. simpl. apply in_or_app. right. left. reflexivity.
  - reflexivity.
  - exact O.
Qed.

Lemma AddEntry_then_GetEntries_witness :
  exists l,
    fst (PasswordVault.GetEntries 1 "EXAMPLE" 0 10
           (snd (PasswordVault.AddEntry 1 "new.example" "pk" "s" "note" one_entry_db)))
    = Return l
    /\ In (PasswordVault.PasswordEntry.mk 8 "new.example" "pk" "s" "note"
                                          "2024-01-03 00:00:00") l.
Proof.
  apply (AddEntry_then_GetEntries one_entry_db 1 "new.example" "pk" "s" "note"
           "EXAMPLE" 10).
  - reflexivity.
  - reflexivity.
  - reflexivity.
  - unfold within_like_limit, LIKE_PATTERN_LENGTH. simpl. lia.
  - exists (utf8_chars None "new."), (utf8_chars None "example"), [].
    split; [reflexivity | repeat constructor].
  - simpl. lia.
Defined.

(** X6 — update, then look up.  On a store that answers its calls, an
    [UpdateEntry] with valid fields on an entry that exists returns true;
    afterwards every row with that [entry_id] carries the new values as they
    were bound, and [GetEntries] for the entry's codebook, first page, large
    enough for the table, lists the entry with the new values and its old
    creation time. *)
Theorem UpdateEntry_then_GetEntries :
  forall (db : sqlite3) (id : Z) (a k p n : string) (r0 : PasswordEntryT.row)
         (page_size : Z),
    healthy db ->
    entry_fields_valid a k p = true ->
    In r0 (PasswordEntry (db_rows db)) ->
    PasswordEntryT.entry_id r0 = id ->
    Z.of_nat (length (PasswordEntry (db_rows db))) <= page_size ->
    let db' := snd (PasswordVault.UpdateEntry id a k p n db) in
    fst (PasswordVault.UpdateEntry id a k p n db) = Return true
    /\ (forall r, In r (PasswordEntry (db_rows db')) ->
                  PasswordEntryT.entry_id r = id ->
                  PasswordEntryT.address r = c_str a
                  /\ PasswordEntryT.public_key r = c_str k
                  /\ PasswordEntryT.encrypted_password r = c_str p
                  /\ PasswordEntryT.notes r = c_str n)
    /\ exists l,
         fst (PasswordVault.GetEntries (PasswordEntryT.codebook_id r0) "" 0
                                       page_size db') = Return l
         /\ In (PasswordVault.PasswordEntry.mk
                  (sqlite3_column_int id) (c_str a) (c_str k) (c_str p) (c_str n)
                  (PasswordEntryT.created_time r0)) l.
Proof.
  intros db id a k p n r0 page_size H V I0 E0 L db'.
  destruct (UpdateEntry_healthy db id a k p n H V) as [E R]. fold db' in R.
  assert (X : entry_exists id (db_rows db) = true).
  { unfold entry_exists. apply existsb_exists. exists r0. split; [exact I0|].
    apply Z.eqb_eq. exact E0. }
  split; [rewrite E, X; reflexivity|].
  split.
  { intros r I Er. rewrite R in I. simpl in I.
    apply in_map_iff in I as [r1 [U I1]]. subst r.
    unfold update_row in *. destruct (PasswordEntryT.entry_id r1 =? id) eqn:T.
    - simpl. auto.
    - apply Z.eqb_neq in T. contradiction. }
  assert (U : update_row (c_str a) (c_str k) (c_str p) (c_str n) id r0
              = PasswordEntryT.mk id (PasswordEntryT.codebook_id r0)
                  (c_str a) (c_str k) (c_str p) (c_str n)
                  (PasswordEntryT.created_time r0)).
  { unfold update_row. rewrite (proj2 (Z.eqb_eq _ _) E0), E0. reflexivity. }
  apply (in_first_page db' (PasswordEntryT.codebook_id r0) "" page_size
           (PasswordEntryT.mk id (PasswordEntryT.codebook_id r0)
              (c_str a) (c_str k) (c_str p) (c_str n)
              (PasswordEntryT.created_time r0))).
  - apply healthy_UpdateEntry. exact H.
  - reflexivity.
  - apply empty_within_like_limit.
  - rewrite R. simpl. rewrite length_map. exact L.
  - rewrite R. simpl. rewrite <- U. apply in_map. exact I0.
  - reflexivity.
  - apply occurs_in_empty.
Qed.

Lemma UpdateEntry_then_GetEntries_witness :
  exists l,
    fst (PasswordVault.GetEntries 1 "" 0 10
           (snd (PasswordVault.UpdateEntry 7 "example.org" "pk2" "secret2" "n"
                                           one_entry_db)))
    = Return l
    /\ In (PasswordVault.PasswordEntry.mk 7 "example.org" "pk2" "secret2" "n"
                                          "2024-01-02 00:00:00") l.
Proof.
  apply (UpdateEntry_then_GetEntries one_entry_db 7 "example.org" "pk2" "secret2" "n"
           (PasswordEntryT.mk 7 1 "example.com" "pk" "secret" "" "2024-01-02 00:00:00")
           10).
  - reflexivity.
  - reflexivity.
  - left. reflexivity.
  - reflexivity.
  - simpl. lia.
Defined.

Lemma CreateCodebook_healthy db u n :
  healthy db ->
  PasswordVault.ValidateCodebookName n = true ->
  fst (PasswordVault.CreateCodebook u n db) = Return true
  /\ db_rows (snd (PasswordVault.CreateCodebook u n db))
     = fst (run_write (InsertCodebook (c_str u) n) (db_now db) (db_rows db)).
Proof.
  intros H V. rewrite (CreateCodebook_unfold db u n V).
  rewrite !healthy_fault_at by exact H.
  rewrite (valid_name_c_str n V). split; reflexivity.
Qed.

(** X7 — create, then list, then use.  On a store that answers its calls, a
    [CreateCodebook] with a valid name returns true, whether the pair was new
    or not; afterwards the table holds a row for the owner (as bound) and the
    name, [GetUserCodebooks] for that owner lists it, and [AddEntry] to its
    id returns true for any field values. *)
Theorem CreateCodebook_then_listed :
  forall (db : sqlite3) (u n : string),
    healthy db ->
    PasswordVault.ValidateCodebookName n = true ->
    let db' := snd (PasswordVault.CreateCodebook u n db) in
    fst (PasswordVault.CreateCodebook u n db) = Return true
    /\ exists r,
         In r (Codebook (db_rows db'))
         /\ CodebookT.username r = c_str u
         /\ CodebookT.codebook_name r = n
         /\ (exists l,
                fst (PasswordVault.GetUserCodebooks u db') = Return l
                /\ In (PasswordVault.read_codebook r) l)
         /\ (forall a k p notes,
                fst (PasswordVault.AddEntry (CodebookT.codebook_id r) a k p notes db')
                = Return true).
Proof.
  intros db u n H V db'.
  destruct (CreateCodebook_healthy db u n H V) as [E R]. fold db' in R.
  assert (H' : healthy db') by (apply healthy_CreateCodebook; exact H).
  split; [exact E|].
  pose proof (insert_codebook_present (c_str u) n (db_now db) (db_rows db)) as P.
  rewrite <- R in P. apply existsb_exists in P as [r [I K]].
  apply same_codebook_key_true in K. unfold codebook_key in K. inversion K as [[K1 K2]].
  exists r. split; [exact I|]. split; [reflexivity|]. split; [reflexivity|].
  split.
  - destruct (GetUserCodebooks_healthy db' u H') as [G _].
    eexists. split; [exact G|]. apply in_map. unfold select_user_codebooks.
    apply (Permutation_in _ (Permutation_sym (order_by_desc_perm _ _))).
    apply filter_In. split; [exact I|]. apply String.eqb_eq. exact K1.
  - intros a k p notes. apply AddEntry_healthy; [exact H'|].
    unfold codebook_exists. apply existsb_exists. exists r.
    split; [exact I | apply Z.eqb_refl].
Qed.

Lemma CreateCodebook_then_listed_witness :
  fst (PasswordVault.CreateCodebook "alice" "mail" empty_db) = Return true.
Proof.
  apply (CreateCodebook_then_listed empty_db "alice" "mail"); reflexivity.
Defined.

(** ** Invariants of the store *)

(** Every entry belongs to a codebook that exists. *)
Definition referential_integrity (t : tables) : Prop :=
  forall e, In e (PasswordEntry t) ->
            codebook_exists (PasswordEntryT.codebook_id e) t = true.

Lemma codebook_exists_more id (l l' : list CodebookT.row) es es' :
  incl l l' ->
  codebook_exists id (mk_tables l es) = true ->
  codebook_exists id (mk_tables l' es') = true.
Proof.
  unfold codebook_exists. simpl. intros S X.
  apply existsb_exists in X as [r [I E]]. apply existsb_exists.
  exists r. split; [apply S; exact I | exact E].
Qed.

Lemma insert_codebook_rows u n now t :
  exists extra,
    fst (run_write (InsertCodebook u n) now t)
    = mk_tables (Codebook t ++ extra) (PasswordEntry t)
    /\ (length extra <= 1)%nat.
Proof.
  simpl. destruct (existsb (same_codebook_key u n) (Codebook t)); simpl.
  - exists []. rewrite app_nil_r. destruct t; split; [reflexivity | simpl; lia].
  - eexists. split; [reflexivity | simpl; lia].
Qed.

Lemma CreateCodebook_rows_cases db u n :
  db_rows (snd (PasswordVault.CreateCodebook u n db)) = db_rows db
  \/ db_rows (snd (PasswordVault.CreateCodebook u n db))
     = fst (run_write (InsertCodebook (c_str u) (c_str n)) (db_now db) (db_rows db)).
Proof.
  destruct (PasswordVault.ValidateCodebookName n) eqn:V.
  - rewrite (CreateCodebook_unfold db u n V).
    destruct (fault_at 0 db); [left; reflexivity|].
    destruct (fault_at 1 db); [left; reflexivity|].
    right. reflexivity.
  - rewrite (CreateCodebook_invalid db u n V). left. reflexivity.
Qed.

Lemma AddEntry_rows_cases db id a k p n :
  db_rows (snd (PasswordVault.AddEntry id a k p n db)) = db_rows db
  \/ codebook_exists id (db_rows db) = true
     /\ db_rows (snd (PasswordVault.AddEntry id a k p n db))
        = mk_tables (Codebook (db_rows db))
            (PasswordEntry (db_rows db) ++ [new_entry id a k p n db]).
Proof.
  rewrite AddEntry_unfold, CheckCodebookExists_unfold.
  destruct (fault_at 0 db); [left; reflexivity|].
  destruct (fault_at 1 db); [left; reflexivity|].
  destruct (codebook_exists id (db_rows db)); [|left; reflexivity].
  rewrite !fault_at_api_exit.
  destruct (fault_at 2 db); [left; reflexivity|].
  destruct (fault_at 3 db); [left; reflexivity|].
  right. split; reflexivity.
Qed.

Lemma integrity_insert_codebook u n now t :
  referential_integrity t ->
  referential_integrity (fst (run_write (InsertCodebook u n) now t)).
Proof.
  intros RI. destruct (insert_codebook_rows u n now t) as [extra [E _]].
  rewrite E. intros e I. simpl in I.
  apply (codebook_exists_more _ (Codebook t) _ (PasswordEntry t)).
  - apply incl_appl, incl_refl.
  - specialize (RI e I). destruct t; exact RI.
Qed.

Lemma integrity_insert_entry id r t :
  referential_integrity t ->
  codebook_exists id t = true ->
  PasswordEntryT.codebook_id r = id ->
  referential_integrity (mk_tables (Codebook t) (PasswordEntry t ++ [r])).
Proof.
  intros RI X C e I. simpl in I. apply in_app_or in I as [I | [<- | []]].
  - apply (codebook_exists_more _ (Codebook t) _ (PasswordEntry t)); [apply incl_refl|].
    specialize (RI e I). destruct t; exact RI.
  - rewrite C. apply (codebook_exists_more _ (Codebook t) _ (PasswordEntry t));
      [apply incl_refl|]. destruct t; exact X.
Qed.

Lemma integrity_update a k p n id t :
  referential_integrity t ->
  referential_integrity
    (mk_tables (Codebook t) (map (update_row a k p n id) (PasswordEntry t))).
Proof.
  intros RI e I. simpl in I. apply in_map_iff in I as [r [U I]]. subst e.
  destruct (update_row_keys a k p n id r) as [_ [C _]]. rewrite C.
  apply (codebook_exists_more _ (Codebook t) _ (PasswordEntry t)); [apply incl_refl|].
  specialize (RI r I). destruct t; exact RI.
Qed.

Lemma integrity_delete_entries id t :
  referential_integrity t -> referential_integrity (delete_entries_rows id t).
Proof.
  intros RI e I. unfold delete_entries_rows in *. simpl in I.
  apply filter_In in I as [I _].
  apply (codebook_exists_more _ (Codebook t) _ (PasswordEntry t)); [apply incl_refl|].
  specialize (RI e I). destruct t; exact RI.
Qed.

Lemma integrity_delete_codebook id t :
  referential_integrity t -> referential_integrity (delete_codebook_rows id t).
Proof.
  intros RI e I. unfold delete_codebook_rows in I. simpl in I.
  apply filter_In in I as [I N]. apply negb_true_iff, Z.eqb_neq in N.
  rewrite codebook_exists_other by exact N. apply RI. exact I.
Qed.

(** X8 — referential integrity is an invariant of the class: if every entry
    belongs to an existing codebook, it still does after [CreateCodebook],
    [AddEntry], [UpdateEntry] or [DeleteCodebook], for every argument and
    whatever calls to the store fail on the way (the deletes run entries
    first, so also a [DeleteCodebook] stopped half way leaves no orphan). *)
Theorem referential_integrity_kept :
  forall (db : sqlite3),
    referential_integrity (db_rows db) ->
    (forall u n,
        referential_integrity (db_rows (snd (PasswordVault.CreateCodebook u n db))))
    /\ (forall id a k p n,
           referential_integrity
             (db_rows (snd (PasswordVault.AddEntry id a k p n db))))
    /\ (forall id a k p n,
           referential_integrity
             (db_rows (snd (PasswordVault.UpdateEntry id a k p n db))))
    /\ (forall id,
           referential_integrity (db_rows (snd (PasswordVault.DeleteCodebook id db)))).
Proof.
  intros db RI. repeat split.
  - intros u n. destruct (CreateCodebook_rows_cases db u n) as [E | E]; rewrite E.
    + exact RI.
    + apply integrity_insert_codebook. exact RI.
  - intros id a k p n.
    destruct (AddEntry_rows_cases db id a k p n) as [E | [X E]]; rewrite E.
    + exact RI.
    + apply (integrity_insert_entry id); [exact RI | exact X | reflexivity].
  - intros id a k p n.
    destruct (UpdateEntry_rows db id a k p n) as [_ [E | [_ E]]]; rewrite E.
    + exact RI.
    + apply integrity_update. exact RI.
  - intros id.
    destruct (DeleteCodebook_rows_cases db id) as [E | [E | E]]; rewrite E.
    + exact RI.
    + apply integrity_delete_entries. exact RI.
    + apply integrity_delete_codebook. exact RI.
Qed.

Lemma referential_integrity_kept_witness :
  referential_integrity
    (db_rows (snd (PasswordVault.DeleteCodebook 1 delete_fails_db))).
Proof.
  apply (referential_integrity_kept delete_fails_db).
  intros e [<- | [<- | []]]; reflexivity.
Defined.

(** The keys of the schema: the two primary keys and the unique pair. *)
Definition keys_unique (t : tables) : Prop :=
  NoDup (map CodebookT.codebook_id (Codebook t))
  /\ NoDup (map PasswordEntryT.entry_id (PasswordEntry t))
  /\ unique_codebooks t.

Lemma fold_max_bound (i : Z) (rest : list Z) x :
  In x (i :: rest) -> x <= fold_right Z.max i rest.
Proof.
  induction rest as [|y rest IH]; simpl.
  - intros [<- | []]. lia.
  - intros [<- | [<- | I]].
    + specialize (IH (or_introl eq_refl)). lia.
    + lia.
    + specialize (IH (or_intror I)). lia.
Qed.

(** A generated rowid is larger than every rowid in use. *)
Lemma next_rowid_above (ids : list Z) x : In x ids -> x < next_rowid ids.
Proof.
  destruct ids as [|i rest]; [intros []|].
  intros I. apply fold_max_bound in I. unfold next_rowid. lia.
Qed.

Lemma next_rowid_fresh (ids : list Z) : ~ In (next_rowid ids) ids.
Proof. intros I. apply next_rowid_above in I. lia. Qed.

Lemma NoDup_snoc {A : Type} (l : list A) x : NoDup l -> ~ In x l -> NoDup (l ++ [x]).
Proof.
  intros ND NI. apply (Permutation_NoDup (l := x :: l)).
  - apply Permutation_cons_append.
  - constructor; assumption.
Qed.

(** Dropping rows keeps a key column free of duplicates. *)
Lemma distinct_keys_filter {Row Key : Type} (keep : Row -> bool) (key : Row -> Key)
      (rows : list Row) (D : NoDup (map key rows)) :
  NoDup (map key (filter keep rows)).
Proof.
  induction rows as [|x l IH]; simpl in *; [constructor|].
  inversion D as [|y ys NI ND']; subst.
  destruct (keep x); simpl; [|apply IH; exact ND'].
  constructor; [|apply IH; exact ND'].
  intros I. apply NI. apply in_map_iff in I as [z [E I]].
  apply filter_In in I as [I _]. apply in_map_iff. exists z. auto.
Qed.

Lemma map_entry_id_update a k p n id (l : list PasswordEntryT.row) :
  map PasswordEntryT.entry_id (map (update_row a k p n id) l)
  = map PasswordEntryT.entry_id l.
Proof.
  rewrite map_map. apply map_ext. intros r.
  destruct (update_row_keys a k p n id r) as [E _]. exact E.
Qed.

Lemma keys_insert_codebook u n now t :
  keys_unique t -> keys_unique (fst (run_write (InsertCodebook u n) now t)).
Proof.
  intros [K1 [K2 K3]].
  destruct (insert_codebook_spec u n now t K3) as [U _].
  split; [|split; [|exact U]].
  - simpl. destruct (existsb (same_codebook_key u n) (Codebook t)); simpl; [exact K1|].
    rewrite map_app. simpl. apply NoDup_snoc; [exact K1 | apply next_rowid_fresh].
  - simpl. destruct (existsb (same_codebook_key u n) (Codebook t)); exact K2.
Qed.

Lemma keys_insert_entry id a k p n db :
  keys_unique (db_rows db) ->
  keys_unique (mk_tables (Codebook (db_rows db))
                 (PasswordEntry (db_rows db) ++ [new_entry id a k p n db])).
Proof.
  intros [K1 [K2 K3]]. split; [exact K1|]. split; [|exact K3].
  simpl. rewrite map_app. simpl. apply NoDup_snoc; [exact K2 | apply next_rowid_fresh].
Qed.

Lemma keys_delete_entries id t : keys_unique t -> keys_unique (delete_entries_rows id t).
Proof.
  intros [K1 [K2 K3]]. split; [exact K1|]. split; [|exact K3].
  apply distinct_keys_filter. exact K2.
Qed.

Lemma keys_delete_codebook id t : keys_unique t -> keys_unique (delete_codebook_rows id t).
Proof.
  intros [K1 [K2 K3]]. unfold keys_unique, unique_codebooks, delete_codebook_rows. simpl.
  split; [apply distinct_keys_filter; exact K1|].
  split; apply distinct_keys_filter; assumption.
Qed.

(** X9 — the keys of the schema stay unique: if no two codebooks share an id
    or an (owner, name) pair and no two entries share an id, the same holds
    after [CreateCodebook], [AddEntry], [UpdateEntry] or [DeleteCodebook],
    for every argument and whatever calls to the store fail. *)
Theorem keys_unique_kept :
  forall (db : sqlite3),
    keys_unique (db_rows db) ->
    (forall u n, keys_unique (db_rows (snd (PasswordVault.CreateCodebook u n db))))
    /\ (forall id a k p n,
           keys_unique (db_rows (snd (PasswordVault.AddEntry id a k p n db))))
    /\ (forall id a k p n,
           keys_unique (db_rows (snd (PasswordVault.UpdateEntry id a k p n db))))
    /\ (forall id, keys_unique (db_rows (snd (PasswordVault.DeleteCodebook id db)))).
Proof.
  intros db K.
  split; [|split; [|split]].
  - intros u n. destruct (CreateCodebook_rows_cases db u n) as [E | E]; rewrite E;
      [exact K | apply keys_insert_codebook; exact K].
  - intros id a k p n.
    destruct (AddEntry_rows_cases db id a k p n) as [E | [_ E]]; rewrite E;
      [exact K | apply keys_insert_entry; exact K].
  - intros id a k p n.
    destruct (UpdateEntry_rows db id a k p n) as [_ [E | [_ E]]]; rewrite E;
      [exact K|].
    destruct K as [K1 [K2 K3]]. split; [exact K1|]. split; [|exact K3].
    simpl. rewrite map_entry_id_update. exact K2.
  - intros id.
    destruct (DeleteCodebook_rows_cases db id) as [E | [E | E]]; rewrite E;
      [exact K | apply keys_delete_entries; exact K
       | apply keys_delete_codebook; exact K].
Qed.

Lemma keys_unique_kept_witness :
  keys_unique (db_rows (snd (PasswordVault.AddEntry 1 "x" "pk" "s" "" one_entry_db))).
Proof.
  apply (keys_unique_kept one_entry_db).
  repeat split; repeat constructor; simpl; tauto.
Defined.

(** ** The listings *)





Lemma limit_offset_length {A : Type} (limit offset : Z) (l : list A) :
  0 <= limit -> Z.of_nat (length (limit_offset limit offset l)) <= limit.
Proof.
  intros H. rewrite limit_offset_window by exact H.
  pose proof (firstn_le_length (Z.to_nat limit) (skipn (Z.to_nat offset) l)). lia.
Qed.

(** X11 — a page is never longer than asked for: for a page size that is not
    negative, every sequence [GetEntries] returns has at most [page_size]
    entries, for every page index (in range or not) and whatever calls to
    the store fail; a page of size 0 is empty. *)
Theorem GetEntries_page_bound :
  forall (db : sqlite3) (id : Z) (f : string) (page page_size : Z)
         (l : list PasswordVault.PasswordEntry.t),
    0 <= page_size ->
    fst (PasswordVault.GetEntries id f page page_size db) = Return l ->
    Z.of_nat (length l) <= page_size.
Proof.
  intros db id f page page_size l S E.
  destruct (fault_at 0 db) as [msg|] eqn:F.
  - destruct (prepare_failure_surfaces db msg F) as [_ [_ [_ [_ [G _]]]]].
    rewrite G in E. discriminate.
  - destruct (GetEntries_prefix db id f page page_size F) as [n [G _]].
    set (sel := select_entries id (c_str ("%" ++ f ++ "%")) page_size
                  (int_wrap (page * page_size)) (db_rows db)) in *.
    assert (L : l = map PasswordVault.read_entry (firstn n sel)) by congruence.
    assert (B : Z.of_nat (length sel) <= page_size)
      by (apply limit_offset_length; exact S).
    rewrite L, length_map, length_firstn. lia.
Qed.

Lemma GetEntries_page_bound_witness :
  Z.of_nat (length [PasswordVault.read_entry entry_e; PasswordVault.read_entry entry_d])
  <= 2.
Proof.
  apply (GetEntries_page_bound five_entries_db 1 "" 0 2); [lia | reflexivity].
Defined.

(** What a listing delivered, nothing if it threw. *)
Definition listed {A : Type} (o : outcome (list A)) : list A :=
  match o with
  | Return l => l
  | Throw _ => []
  end.

Lemma firstn_add_skipn {A : Type} (a b : nat) (l : list A) :
  (firstn a l ++ firstn b (skipn a l))%list = firstn (a + b) l.
Proof.
  revert l. induction a as [|a IH]; intros l; simpl; [reflexivity|].
  destruct l as [|x l]; simpl.
  - rewrite firstn_nil. reflexivity.
  - rewrite IH. reflexivity.
Qed.

(** X12 — the pages tile the listing: on a store that answers its calls,
    pages 0, 1, ..., n-1 of size [page_size], one after the other, are the
    first [n * page_size] entries of the listing of the matching entries
    newest first, each entry once and in order. *)
Theorem GetEntries_pages_tile :
  forall (db : sqlite3) (id : Z) (f : string) (page_size : Z) (n : nat),
    healthy db ->
    0 <= page_size ->
    Z.of_nat n * page_size <= INT_MAX ->
    flat_map (fun p => listed (fst (PasswordVault.GetEntries id f (Z.of_nat p)
                                                             page_size db)))
             (seq 0 n)
    = map PasswordVault.read_entry
        (firstn (n * Z.to_nat page_size)
           (order_by_desc PasswordEntryT.created_time
              (filter (entry_matches id (c_str ("%" ++ f ++ "%")))
                      (PasswordEntry (db_rows db))))).
Proof.
  intros db id f page_size n H S.
  induction n as [|n IH]; intros B; [reflexivity|].
  rewrite seq_S, flat_map_app, IH by lia. simpl flat_map. rewrite app_nil_r.
  destruct (GetEntries_healthy db id f (Z.of_nat n) page_size H) as [E _].
  rewrite E, select_entries_page by lia. simpl listed.
  rewrite <- map_app. f_equal.
  replace (Z.to_nat (Z.of_nat n * page_size)) with (n * Z.to_nat page_size)%nat by nia.
  rewrite firstn_add_skipn. f_equal. simpl. lia.
Qed.

Lemma GetEntries_pages_tile_witness :
  flat_map (fun p => listed (fst (PasswordVault.GetEntries 1 "" (Z.of_nat p) 2
                                                           five_entries_db)))
           (seq 0 3)
  = map PasswordVault.read_entry [entry_e; entry_d; entry_c; entry_b; entry_a].
Proof.
  rewrite (GetEntries_pages_tile five_entries_db 1 "" 2 3);
    [reflexivity | reflexivity | lia | unfold INT_MAX; lia].
Defined.

(** ** What the writes leave alone *)



(** ** What is stored *)

Lemma c_str_length s : (String.length (c_str s) <= String.length s)%nat.
Proof.
  induction s as [|c s IH]; simpl; [lia|].
  destruct (Ascii.eqb c zero); simpl; lia.
Qed.

Definition no_nul (s : string) : bool :=
  forallb (fun c => negb (Ascii.eqb c zero)) (list_ascii_of_string s).

(** X15 — what a successful [UpdateEntry] stores is within the bounds it
    checks: when it returns true the three checked arguments were non-empty
    and within 253, 4096 and 512 bytes, every row with that [entry_id] holds
    an address, a public key and an encrypted password of at most that many
    bytes, and an argument free of NUL bytes is stored as it was given. *)
Theorem UpdateEntry_stored_bounds :
  forall (db : sqlite3) (id : Z) (a k p n : string),
    fst (PasswordVault.UpdateEntry id a k p n db) = Return true ->
    (a <> "" /\ String.length a <= 253
     /\ k <> "" /\ String.length k <= 4096
     /\ p <> "" /\ String.length p <= 512)%nat
    /\ forall r,
         In r (PasswordEntry (db_rows (snd (PasswordVault.UpdateEntry id a k p n db)))) ->
         PasswordEntryT.entry_id r = id ->
         (String.length (PasswordEntryT.address r) <= 253
          /\ String.length (PasswordEntryT.public_key r) <= 4096
          /\ String.length (PasswordEntryT.encrypted_password r) <= 512)%nat
         /\ (no_nul a = true -> PasswordEntryT.address r = a)
         /\ (no_nul k = true -> PasswordEntryT.public_key r = k)
         /\ (no_nul p = true -> PasswordEntryT.encrypted_password r = p)
         /\ (no_nul n = true -> PasswordEntryT.notes r = n).
Proof.
  intros db id a k p n E.
  destruct (entry_fields_valid a k p) eqn:V.
  2:{ destruct (UpdateEntry_invalid db id a k p n V) as [what W].
      rewrite W in E. discriminate. }
  assert (B : (a <> "" /\ String.length a <= 253
               /\ k <> "" /\ String.length k <= 4096
               /\ p <> "" /\ String.length p <= 512)%nat).
  { unfold entry_fields_valid in V.
    rewrite !andb_true_iff, !negb_true_iff, !orb_false_iff in V.
    destruct V as [[[A1 A2] [K1 K2]] [P1 P2]].
    apply String.eqb_neq in A1, K1, P1. apply Nat.ltb_ge in A2, K2, P2. tauto. }
  split; [exact B|].
  destruct (UpdateEntry_true db id a k p n E) as [_ R]. rewrite R. simpl.
  intros r I Er. apply in_map_iff in I as [r1 [U I]]. subst r.
  unfold update_row in *.
  destruct (PasswordEntryT.entry_id r1 =? id) eqn:T;
    [|apply Z.eqb_neq in T; contradiction].
  simpl.
  pose proof (c_str_length a). pose proof (c_str_length k). pose proof (c_str_length p).
  split; [lia|].
  repeat split; intros N; apply c_str_no_nul; exact N.
Qed.

Lemma UpdateEntry_stored_bounds_witness :
  ("example.org" <> "" /\ String.length "example.org" <= 253
   /\ "pk2" <> "" /\ String.length "pk2" <= 4096
   /\ "secret2" <> "" /\ String.length "secret2" <= 512)%nat.
Proof.
  apply (UpdateEntry_stored_bounds one_entry_db 7 "example.org" "pk2" "secret2" "").
  reflexivity.
Defined.

(** Every codebook carries a name that [ValidateCodebookName] accepts. *)
Definition codebook_names_valid (t : tables) : Prop :=
  forall r, In r (Codebook t) ->
            PasswordVault.ValidateCodebookName (CodebookT.codebook_name r) = true.

(** X16 — valid names are an invariant: if every codebook in the table has a
    name [ValidateCodebookName] accepts (1 to 100 characters, alphanumeric,
    space, hyphen, underscore), the same holds after [CreateCodebook],
    [AddEntry], [UpdateEntry] or [DeleteCodebook], for every argument and
    whatever calls to the store fail. *)
Theorem codebook_names_valid_kept :
  forall (db : sqlite3),
    codebook_names_valid (db_rows db) ->
    (forall u n,
        codebook_names_valid (db_rows (snd (PasswordVault.CreateCodebook u n db))))
    /\ (forall id a k p n,
           codebook_names_valid (db_rows (snd (PasswordVault.AddEntry id a k p n db))))
    /\ (forall id a k p n,
           codebook_names_valid
             (db_rows (snd (PasswordVault.UpdateEntry id a k p n db))))
    /\ (forall id,
           codebook_names_valid (db_rows (snd (PasswordVault.DeleteCodebook id db)))).
Proof.
  intros db N.
  split; [|split; [|split]].
  - intros u n. destruct (PasswordVault.ValidateCodebookName n) eqn:V.
    + rewrite (CreateCodebook_unfold db u n V).
      destruct (fault_at 0 db); [exact N|].
      destruct (fault_at 1 db); [exact N|].
      rewrite (valid_name_c_str n V). simpl.
      destruct (existsb (same_codebook_key (c_str u) n) (Codebook (db_rows db)));
        simpl; [exact N|].
      intros r I. simpl in I. apply in_app_or in I as [I | [<- | []]].
      * apply N. exact I.
      * exact V.
    + rewrite (CreateCodebook_invalid db u n V). exact N.
  - intros id a k p n.
    destruct (AddEntry_rows_cases db id a k p n) as [E | [_ E]]; rewrite E; exact N.
  - intros id a k p n.
    destruct (UpdateEntry_rows db id a k p n) as [_ [E | [_ E]]]; rewrite E; exact N.
  - intros id.
    destruct (DeleteCodebook_rows_cases db id) as [E | [E | E]]; rewrite E.
    + exact N.
    + exact N.
    + intros r I. unfold delete_codebook_rows in I. simpl in I.
      apply filter_In in I as [I _]. apply N. exact I.
Qed.

Lemma codebook_names_valid_kept_witness :
  codebook_names_valid
    (db_rows (snd (PasswordVault.CreateCodebook "user" "bank" one_entry_db))).
Proof.
  apply (codebook_names_valid_kept one_entry_db).
  intros r [<- | []]. reflexivity.
Defined.

(** ** DeleteCodebook: the failure paths in detail *)

(** X17 — how often [DeleteCodebook] rolls back.  For a codebook that
    exists, outside a transaction, once the transaction is begun: when
    preparing or executing one of the two deletes fails, ROLLBACK is issued
    twice, once where the failure is detected and once more by the
    catch-all handler the exception then passes through; when only the
    COMMIT fails it is issued once; when nothing fails it is not issued. *)
Theorem DeleteCodebook_rollback_count :
  forall (db : sqlite3) (id : Z),
    db_journal db = None ->
    codebook_exists id (db_rows db) = true ->
    fault_at 0 db = None -> fault_at 1 db = None -> fault_at 2 db = None ->
    let calls := calls_since db (snd (PasswordVault.DeleteCodebook id db)) in
    (any_fault_between 3 4 db = true -> count_if is_rollback calls = 2)
    /\ (any_fault_between 3 4 db = false -> fault_at 7 db <> None ->
        count_if is_rollback calls = 1)
    /\ (any_fault_between 3 5 db = false -> count_if is_rollback calls = 0).
Proof.
  intros db id J X F0 F1 F2 calls. unfold calls. clear calls.
  remember (PasswordVault.DeleteCodebook id db) as result eqn:R.
  unfold PasswordVault.DeleteCodebook in R. unfold bind at 1 in R.
  rewrite CheckCodebookExists_unfold, F0, F1, X in R. clear F0 F1.
  destruct db as [t j c e now fs tr]. simpl in J. subst j.
  unfold any_fault_between, fault_at, calls_since, count_if in *.
  simpl in F2.
  destruct fs as [|f0 [|f1 [|[m2|] fs]]]; simpl in F2; try discriminate F2;
    eval_body R; split_script R; run_done R; close_case.
Qed.

Lemma DeleteCodebook_rollback_count_witness :
  count_if is_rollback
    (calls_since delete_fails_db (snd (PasswordVault.DeleteCodebook 1 delete_fails_db)))
  = 2.
Proof.
  apply (DeleteCodebook_rollback_count delete_fails_db 1); reflexivity.
Defined.

(** The diagnostic [sqlite3_errmsg] holds after a call for which [f] was
    scripted. *)
Definition diagnostic_after (f : option string) : string :=
  match f with
  | Some m => m
  | None => not_an_error
  end.

(** X18 — which diagnostic a failed delete reports.  When executing the
    delete of the entries (or of the codebook) fails, [DeleteCodebook] reads
    [sqlite3_errmsg] only after it has called ROLLBACK: the [runtime_error]
    it throws carries the diagnostic of that ROLLBACK ("not an error" when
    the rollback succeeds), not the one of the failed delete. *)
Theorem DeleteCodebook_failed_delete_message :
  forall (db : sqlite3) (id : Z) (msg : string),
    db_journal db = None ->
    codebook_exists id (db_rows db) = true ->
    fault_at 0 db = None -> fault_at 1 db = None ->
    fault_at 2 db = None -> fault_at 3 db = None ->
    (fault_at 4 db = Some msg ->
     fst (PasswordVault.DeleteCodebook id db)
     = Throw (runtime_error
                ("Delete entries failed: " ++ diagnostic_after (fault_at 5 db))))
    /\ (fault_at 4 db = None -> fault_at 5 db = None -> fault_at 6 db = Some msg ->
        fst (PasswordVault.DeleteCodebook id db)
        = Throw (runtime_error
                   ("Delete codebook failed: " ++ diagnostic_after (fault_at 7 db)))).
Proof.
  intros db id msg J X F0 F1 F2 F3.
  remember (PasswordVault.DeleteCodebook id db) as result eqn:R.
  unfold PasswordVault.DeleteCodebook in R. unfold bind at 1 in R.
  rewrite CheckCodebookExists_unfold, F0, F1, X in R. clear F0 F1.
  destruct db as [t j c e now fs tr]. simpl in J. subst j.
  unfold fault_at, diagnostic_after in *. simpl in F2, F3.
  destruct fs as [|f0 [|f1 [|[m2|] [|[m3|] fs]]]]; simpl in F2, F3;
    try discriminate F2; try discriminate F3;
    eval_body R; split_script R; run_done R; close_case.
Qed.

Lemma DeleteCodebook_failed_delete_message_witness :
  fst (PasswordVault.DeleteCodebook 1 delete_fails_db)
  = Throw (runtime_error "Delete entries failed: not an error").
Proof.
  apply (DeleteCodebook_failed_delete_message delete_fails_db 1 "disk I/O error");
    reflexivity.
Defined.

(** ** The filter and the case of letters *)

(** A text with its ASCII letters in upper case. *)
Fixpoint upper (s : string) : string :=
  match s with
  | EmptyString => EmptyString
  | String c s' => String (to_upper c) (upper s')
  end.

Lemma to_upper_facts c :
  to_upper (to_upper c) = to_upper c
  /\ Ascii.eqb (to_upper c) "%" = Ascii.eqb c "%"
  /\ Ascii.eqb (to_upper c) "_" = Ascii.eqb c "_"
  /\ Ascii.eqb (to_upper c) zero = Ascii.eqb c zero.
Proof.
  destruct c as [b0 b1 b2 b3 b4 b5 b6 b7].
  destruct b0, b1, b2, b3, b4, b5, b6, b7; repeat split; reflexivity.
Qed.

Lemma c_str_upper s : c_str (upper s) = upper (c_str s).
Proof.
  induction s as [|c s IH]; simpl; [reflexivity|].
  destruct (to_upper_facts c) as [_ [_ [_ E]]]. rewrite E.
  destruct (Ascii.eqb c zero); simpl; [reflexivity | rewrite IH; reflexivity].
Qed.

Lemma upper_length s : String.length (upper s) = String.length s.
Proof. induction s as [|c s IH]; simpl; [reflexivity | rewrite IH; reflexivity]. Qed.

(** [to_upper] on the code of a character. *)
Definition upper_code (n : N) : N :=
  (if (97 <=? n) && (n <=? 122) then n - 32 else n)%N.

Lemma to_upper_code b :
  N_of_ascii (to_upper b) = upper_code (N_of_ascii b)
  /\ utf8_is_cont (N_of_ascii (to_upper b)) = utf8_is_cont (N_of_ascii b)
  /\ (N_of_ascii (to_upper b) <? 192)%N = (N_of_ascii b <? 192)%N
  /\ ((N_of_ascii b <? 192)%N = false -> to_upper b = b)
  /\ (utf8_is_cont (N_of_ascii b) = true -> to_upper b = b).
Proof.
  destruct b as [b0 b1 b2 b3 b4 b5 b6 b7].
  destruct b0, b1, b2, b3, b4, b5, b6, b7;
    (split; [reflexivity|]; split; [reflexivity|]; split; [reflexivity|]; split);
    intros D; try discriminate D; reflexivity.
Qed.

Ltac by_comparisons :=
  repeat match goal with
         | |- context [(?a <=? ?b)%N] => destruct (N.leb_spec a b)
         | |- context [(?a <? ?b)%N] => destruct (N.ltb_spec a b)
         | |- context [(?a =? ?b)%N] => destruct (N.eqb_spec a b)
         end;
  cbn [andb orb negb] in *; try reflexivity; try lia; try (exfalso; lia).

Lemma upper_code_high c : (128 <= c)%N -> upper_code c = c.
Proof. intros H. unfold upper_code. by_comparisons. Qed.

Lemma upper_code_wildcard c :
  (upper_code c =? 37)%N = (c =? 37)%N /\ (upper_code c =? 95)%N = (c =? 95)%N.
Proof. unfold upper_code. split; by_comparisons. Qed.

Lemma like_char_upper p c : like_char (upper_code p) c = like_char p c.
Proof.
  unfold like_char, upper_code.
  destruct ((97 <=? p) && (p <=? 122))%N eqn:U; [|reflexivity].
  apply andb_true_iff in U as [U1 U2]. apply N.leb_le in U1, U2.
  unfold like_lower. by_comparisons.
Qed.

Lemma utf8_chars_upper pending s :
  utf8_chars pending (upper s) = map upper_code (utf8_chars pending s).
Proof.
  revert pending. induction s as [|b s IH]; intros pending.
  - destruct pending as [c|]; [|reflexivity].
    simpl. rewrite (upper_code_high _ (utf8_finish_high c)). reflexivity.
  - change (upper (String b s)) with (String (to_upper b) (upper s)).
    cbn [utf8_chars].
    destruct (to_upper_code b) as [E1 [E2 [E3 [E4 E5]]]]. rewrite E2, E3.
    destruct pending as [c|].
    + destruct (utf8_is_cont (N_of_ascii b)) eqn:C.
      * rewrite (E5 eq_refl), IH. reflexivity.
      * cbn [map]. rewrite (upper_code_high _ (utf8_finish_high c)).
        destruct (N_of_ascii b <? 192)%N eqn:L.
        -- cbn [map]. rewrite E1, IH. reflexivity.
        -- rewrite (E4 eq_refl), IH. reflexivity.
    + destruct (N_of_ascii b <? 192)%N eqn:L.
      * cbn [map]. rewrite E1, IH. reflexivity.
      * rewrite (E4 eq_refl), IH. reflexivity.
Qed.

Lemma like_chars_upper pattern s :
  like_chars (map upper_code pattern) s = like_chars pattern s.
Proof.
  revert s. induction pattern as [|p pattern IH]; intros s; [reflexivity|].
  cbn [map].
  destruct (upper_code_wildcard p) as [E1 E2].
  destruct (p =? 37)%N eqn:P.
  - apply N.eqb_eq in P. subst p.
    change (upper_code 37) with 37%N.
    induction s as [|c s IHs].
    + rewrite !like_chars_percent_unfold, IH. reflexivity.
    + rewrite (like_chars_percent_unfold (map upper_code pattern)),
        (like_chars_percent_unfold pattern).
      rewrite IH, IHs. reflexivity.
  - rewrite (like_chars_plain_unfold (upper_code p)) by exact E1.
    rewrite (like_chars_plain_unfold p) by exact P.
    destruct s as [|c s]; [reflexivity|].
    rewrite E2, like_char_upper, IH. reflexivity.
Qed.

Lemma like_upper pattern s : like (upper pattern) s = like pattern s.
Proof.
  unfold like.
  rewrite upper_length, c_str_upper, utf8_chars_upper, like_chars_upper.
  reflexivity.
Qed.

Lemma upper_app s1 s2 : upper (s1 ++ s2) = upper s1 ++ upper s2.
Proof. induction s1 as [|c s1 IH]; simpl; [reflexivity | rewrite IH; reflexivity]. Qed.

Lemma filter_pattern_upper f a :
  like (c_str ("%" ++ upper f ++ "%")) a = like (c_str ("%" ++ f ++ "%")) a.
Proof.
  change ("%" ++ upper f ++ "%") with (upper "%" ++ upper f ++ upper "%").
  rewrite <- !upper_app, c_str_upper. apply like_upper.
Qed.

Lemma GetEntries_same_selection db id f1 f2 page page_size :
  (forall t limit offset,
      select_entries id (c_str ("%" ++ f1 ++ "%")) limit offset t
      = select_entries id (c_str ("%" ++ f2 ++ "%")) limit offset t) ->
  PasswordVault.GetEntries id f1 page page_size db
  = PasswordVault.GetEntries id f2 page page_size db.
Proof.
  intros S. unfold PasswordVault.GetEntries, bind, result_set.
  destruct (sqlite3_prepare_v2 db) as [[rc|e] db1]; [|reflexivity].
  destruct (negb (rc_eqb rc SQLITE_OK)); [reflexivity|].
  rewrite S. reflexivity.
Qed.

(** X19 — the filter ignores the case of ASCII letters: [GetEntries] with a
    filter and with the same filter in upper case are the same call, for
    every connection state: the same result and the same final state. *)
Theorem GetEntries_filter_case :
  forall (db : sqlite3) (id : Z) (f : string) (page page_size : Z),
    PasswordVault.GetEntries id (upper f) page page_size db
    = PasswordVault.GetEntries id f page page_size db.
Proof.
  intros db id f page page_size. apply GetEntries_same_selection.
  intros t limit offset. unfold select_entries. do 2 f_equal.
  apply filter_ext. intros r. unfold entry_matches.
  rewrite filter_pattern_upper. reflexivity.
Qed.

(** ** Owners and codebooks do not see each other's writes *)

Lemma filter_app_none {A : Type} (p : A -> bool) (l extra : list A) :
  (forall x, In x extra -> p x = false) ->
  filter p (l ++ extra) = filter p l.
Proof.
  intros N. rewrite filter_app.
  rewrite (proj2 (filter_nil_iff p extra) N). apply app_nil_r.
Qed.

(** X20 — a [CreateCodebook] for one owner does not show in the listing of
    another: on a store that answers its calls, for owners that differ as
    bound, [GetUserCodebooks] for the other owner returns after the call
    what it returned before it. *)
Theorem CreateCodebook_other_owner :
  forall (db : sqlite3) (u other n : string),
    healthy db ->
    c_str other <> c_str u ->
    fst (PasswordVault.GetUserCodebooks other
           (snd (PasswordVault.CreateCodebook u n db)))
    = fst (PasswordVault.GetUserCodebooks other db).
Proof.
  intros db u other n H NE.
  destruct (GetUserCodebooks_healthy db other H) as [G _].
  destruct (GetUserCodebooks_healthy _ other (healthy_CreateCodebook db u n H))
    as [G' _].
  rewrite G', G. do 2 f_equal.
  destruct (CreateCodebook_rows_cases db u n) as [E | E]; rewrite E; [reflexivity|].
  destruct (insert_codebook_rows (c_str u) (c_str n) (db_now db) (db_rows db))
    as [extra [R _]].
  unfold select_user_codebooks. f_equal.
  simpl. destruct (existsb (same_codebook_key (c_str u) (c_str n))
                           (Codebook (db_rows db))); simpl; [reflexivity|].
  apply filter_app_none. intros r [<- | []]. simpl.
  apply String.eqb_neq. congruence.
Qed.

Lemma CreateCodebook_other_owner_witness :
  fst (PasswordVault.GetUserCodebooks "user"
         (snd (PasswordVault.CreateCodebook "alice" "mail" one_entry_db)))
  = fst (PasswordVault.GetUserCodebooks "user" one_entry_db).
Proof.
  apply (CreateCodebook_other_owner one_entry_db "alice" "user" "mail").
  - reflexivity.
  - discriminate.
Defined.

(** X21 — an [AddEntry] to one codebook does not show in another: on a store
    that answers its calls, [GetEntries] for a different codebook returns
    after the call what it returned before it, for every filter and page. *)
Theorem AddEntry_other_codebook :
  forall (db : sqlite3) (id other : Z) (a k p n f : string) (page page_size : Z),
    healthy db ->
    other <> id ->
    fst (PasswordVault.GetEntries other f page page_size
           (snd (PasswordVault.AddEntry id a k p n db)))
    = fst (PasswordVault.GetEntries other f page page_size db).
Proof.
  intros db id other a k p n f page page_size H NE.
  destruct (GetEntries_healthy db other f page page_size H) as [G _].
  destruct (GetEntries_healthy _ other f page page_size
              (healthy_AddEntry db id a k p n H)) as [G' _].
  rewrite G', G. do 2 f_equal.
  destruct (AddEntry_rows_cases db id a k p n) as [E | [_ E]]; rewrite E;
    [reflexivity|].
  unfold select_entries. do 2 f_equal. simpl.
  apply filter_app_none. intros r [<- | []].
  unfold entry_matches, new_entry. simpl.
  apply andb_false_iff. left. apply Z.eqb_neq. congruence.
Qed.

Lemma AddEntry_other_codebook_witness :
  fst (PasswordVault.GetEntries 2 "" 0 10
         (snd (PasswordVault.AddEntry 1 "x.example" "pk" "s" "" five_entries_db)))
  = fst (PasswordVault.GetEntries 2 "" 0 10 five_entries_db).
Proof.
  apply (AddEntry_other_codebook five_entries_db 1 2 "x.example" "pk" "s" "" "" 0 10).
  - reflexivity.
  - discriminate.
Defined.
